(** * Port-config merge and model build task of the ingress model builder

    A shallow embedding of [pkg/ingress/model_builder.go]
    ([mergeListenPortConfigs] and [run] of [defaultModelBuildTask]) and of the
    protection synthesizer exercised by the [shield] test-suite, together with
    the properties the specification states about them. *)

From Stdlib Require Import DecimalString.
From stdpp Require Import gmap strings list fin_maps sorting.

Local Open Scope string_scope.
Local Open Scope list_scope.

(** ** Errors, as [github.com/pkg/errors] builds them

    [errors.New] and [errors.Errorf] both allocate a [*fundamental] holding the
    message; [errors.Wrapf] allocates a [*withMessage] (inside a [*withStack])
    around its cause.  Call stacks are not modelled. *)
Module errors.

Inductive error : Type :=
| fundamental (msg : string)
| withMessage (cause : error) (msg : string).

Definition New (msg : string) : error := fundamental msg.
Definition Wrapf (err : error) (msg : string) : error := withMessage err msg.

(** The [Error()] method. *)
Fixpoint Error (e : error) : string :=
  match e with
  | fundamental msg => msg
  | withMessage cause msg => msg +:+ ": " +:+ Error cause
  end.

(** The dynamic type of an error value, which is all a caller can switch on
    besides the message text. *)
Inductive kind : Type := KFundamental | KWithMessage.

Definition kindOf (e : error) : kind :=
  match e with
  | fundamental _ => KFundamental
  | withMessage _ _ => KWithMessage
  end.

#[global] Instance error_eq_dec : EqDecision error.
Proof. solve_decision. Defined.

#[global] Instance kind_eq_dec : EqDecision kind.
Proof. solve_decision. Defined.

End errors.

Abbreviation error := errors.error.

(** A Go [(T, error)] result: either the value or the non-nil error. *)
Inductive result (A : Type) : Type :=
| Ok (a : A)
| Err (e : error).
Arguments Ok {A} a.
Arguments Err {A} e.

Definition rbind {A B : Type} (r : result A) (k : A → result B) : result B :=
  match r with
  | Ok a => k a
  | Err e => Err e
  end.

Notation "x ←? r ; k" := (rbind r (fun x => k))
  (at level 100, r at next level, k at level 200, right associativity,
   format "x  ←?  r ;  '/' k").

Definition isOk {A : Type} (r : result A) : bool :=
  match r with Ok _ => true | Err _ => false end.

(** ** Data model *)

(** [types.NamespacedName]. *)
Record NamespacedName : Type := mkNamespacedName {
  Namespace : string;
  Name : string;
}.

#[global] Instance NamespacedName_eq_dec : EqDecision NamespacedName.
Proof. solve_decision. Defined.

#[global] Instance NamespacedName_countable : Countable NamespacedName.
Proof.
  refine (inj_countable' (fun n => (Namespace n, Name n))
                         (fun p => mkNamespacedName p.1 p.2) _).
  by intros [].
Defined.

(** The zero value of the struct, which a [var] declaration yields. *)
Definition zeroNamespacedName : NamespacedName := mkNamespacedName "" "".

(** [elbv2model.Protocol] is a string type. *)
Definition Protocol : Type := string.

(** Modelled from the spec: the two constants of [pkg/model/elbv2], the
    plain and the secure protocol of a listener (spec section 3,
    [protocol: HTTP|HTTPS]). *)
Definition ProtocolHTTP : Protocol := "HTTP".
Definition ProtocolHTTPS : Protocol := "HTTPS".

(** [listenPortConfig]; [sslPolicy] is a [*string]. *)
Record listenPortConfig : Type := mkListenPortConfig {
  protocol : Protocol;
  inboundCIDRv4s : list string;
  inboundCIDRv6s : list string;
  sslPolicy : option string;
  tlsCerts : list string;
}.

#[global] Instance listenPortConfig_eq_dec : EqDecision listenPortConfig.
Proof. solve_decision. Defined.

(** ** Formatting with the [%v] verb *)
Module fmt.

(** [NamespacedName.String]: namespace, separator, name. *)
Definition namespacedName (n : NamespacedName) : string :=
  Namespace n +:+ "/" +:+ Name n.

(** A [[]string]: the elements between brackets, separated by spaces. *)
Definition strings (l : list string) : string :=
  "[" +:+ String.concat " " l +:+ "]".

(** An [int64] in decimal. *)
Definition int64 (z : Z) : string :=
  NilEmpty.string_of_int (Z.to_int z).

End fmt.

(** ** [sets.String] of [k8s.io/apimachinery]

    A set of strings; [List] returns its elements sorted. *)
Module sets.

Definition String : Type := gset string.

Definition NewString : String := ∅.

Definition Insert (s : String) (items : list string) : String :=
  s ∪ list_to_set items.

Definition le (a b : string) : Prop := String.leb a b.

#[global] Instance le_dec : RelDecision le.
Proof. intros a b. unfold le. apply _. Defined.

Definition List (s : String) : list string :=
  merge_sort le (elements s).

End sets.

(** ** [mergeListenPortConfigs]

    The Go map [listenPortConfigByIngress] is ranged over in an order the
    runtime picks; the function is modelled on the sequence of entries the
    [range] statement yields, and [rangeOrder] says which sequences a map can
    yield. *)

Definition rangeOrder `{Countable K} {V : Type}
    (m : gmap K V) (l : list (K * V)) : Prop :=
  l ≡ₚ map_to_list m.

(** The local variables of the function that the loop updates. *)
Record mergeVars : Type := mkMergeVars {
  mergedProtocol : option Protocol;
  mergedProtocolProvider : NamespacedName;
  mergedInboundCIDRv4s : list string;
  mergedInboundCIDRv6s : list string;
  mergedInboundCIDRsProvider : NamespacedName;
  mergedSSLPolicy : option string;
  mergedSSLPolicyProvider : NamespacedName;
  mergedTLSCerts : sets.String;
}.

(** Their values when the loop is entered (lines 195-202). *)
Definition initVars : mergeVars :=
  {| mergedProtocol := None;
     mergedProtocolProvider := zeroNamespacedName;
     mergedInboundCIDRv4s := [];
     mergedInboundCIDRv6s := [];
     mergedInboundCIDRsProvider := zeroNamespacedName;
     mergedSSLPolicy := None;
     mergedSSLPolicyProvider := zeroNamespacedName;
     mergedTLSCerts := sets.NewString |}.

Definition setProtocol (v : mergeVars) (p : Protocol) (k : NamespacedName) : mergeVars :=
  {| mergedProtocol := Some p;
     mergedProtocolProvider := k;
     mergedInboundCIDRv4s := mergedInboundCIDRv4s v;
     mergedInboundCIDRv6s := mergedInboundCIDRv6s v;
     mergedInboundCIDRsProvider := mergedInboundCIDRsProvider v;
     mergedSSLPolicy := mergedSSLPolicy v;
     mergedSSLPolicyProvider := mergedSSLPolicyProvider v;
     mergedTLSCerts := mergedTLSCerts v |}.

Definition setInboundCIDRs (v : mergeVars) (v4 v6 : list string) : mergeVars :=
  {| mergedProtocol := mergedProtocol v;
     mergedProtocolProvider := mergedProtocolProvider v;
     mergedInboundCIDRv4s := v4;
     mergedInboundCIDRv6s := v6;
     mergedInboundCIDRsProvider := mergedInboundCIDRsProvider v;
     mergedSSLPolicy := mergedSSLPolicy v;
     mergedSSLPolicyProvider := mergedSSLPolicyProvider v;
     mergedTLSCerts := mergedTLSCerts v |}.

Definition setSSLPolicy (v : mergeVars) (p : string) (k : NamespacedName) : mergeVars :=
  {| mergedProtocol := mergedProtocol v;
     mergedProtocolProvider := mergedProtocolProvider v;
     mergedInboundCIDRv4s := mergedInboundCIDRv4s v;
     mergedInboundCIDRv6s := mergedInboundCIDRv6s v;
     mergedInboundCIDRsProvider := mergedInboundCIDRsProvider v;
     mergedSSLPolicy := Some p;
     mergedSSLPolicyProvider := k;
     mergedTLSCerts := mergedTLSCerts v |}.

Definition insertTLSCerts (v : mergeVars) (items : list string) : mergeVars :=
  {| mergedProtocol := mergedProtocol v;
     mergedProtocolProvider := mergedProtocolProvider v;
     mergedInboundCIDRv4s := mergedInboundCIDRv4s v;
     mergedInboundCIDRv6s := mergedInboundCIDRv6s v;
     mergedInboundCIDRsProvider := mergedInboundCIDRsProvider v;
     mergedSSLPolicy := mergedSSLPolicy v;
     mergedSSLPolicyProvider := mergedSSLPolicyProvider v;
     mergedTLSCerts := sets.Insert (mergedTLSCerts v) items |}.

(** [len(v4) != 0 || len(v6) != 0] (lines 214 and 216). *)
Definition definedCIDRs (v4 v6 : list string) : bool :=
  negb (length v4 =? 0)%nat || negb (length v6 =? 0)%nat.

(** The three [errors.Errorf] calls (lines 210, 221 and 231) and the
    [errors.New] call (line 239). *)
Definition errConflictingProtocol
    (k1 : NamespacedName) (p1 : Protocol)
    (k2 : NamespacedName) (p2 : Protocol) : error :=
  errors.New ("conflicting protocol, " +:+ fmt.namespacedName k1 +:+ ": " +:+ p1
              +:+ " | " +:+ fmt.namespacedName k2 +:+ ": " +:+ p2).

Definition errConflictingCIDRs
    (k1 : NamespacedName) (a4 a6 : list string)
    (k2 : NamespacedName) (b4 b6 : list string) : error :=
  errors.New ("conflicting sslPolicy, " +:+ fmt.namespacedName k1 +:+ ": "
              +:+ fmt.strings a4 +:+ ", " +:+ fmt.strings a6
              +:+ " | " +:+ fmt.namespacedName k2 +:+ ": "
              +:+ fmt.strings b4 +:+ ", " +:+ fmt.strings b6).

Definition errConflictingSSLPolicy
    (k1 : NamespacedName) (p1 : string)
    (k2 : NamespacedName) (p2 : string) : error :=
  errors.New ("conflicting sslPolicy, " +:+ fmt.namespacedName k1 +:+ ": " +:+ p1
              +:+ " | " +:+ fmt.namespacedName k2 +:+ ": " +:+ p2).

Definition errShouldNeverHappen : error := errors.New "should never happen".

(** Lines 205-212: the protocol of the first entry is kept, every later one
    is compared with it. *)
Definition mergeProtocol (v : mergeVars) (ingKey : NamespacedName)
    (cfg : listenPortConfig) : result mergeVars :=
  match mergedProtocol v with
  | None => Ok (setProtocol v (protocol cfg) ingKey)
  | Some p =>
      if decide (p ≠ protocol cfg)
      then Err (errConflictingProtocol (mergedProtocolProvider v) p
                                       ingKey (protocol cfg))
      else Ok v
  end.

(** Lines 214-224: the inbound CIDRs. *)
Definition mergeInboundCIDRs (v : mergeVars) (ingKey : NamespacedName)
    (cfg : listenPortConfig) : result mergeVars :=
  let definedCIDRsInCfg := definedCIDRs (inboundCIDRv4s cfg) (inboundCIDRv6s cfg) in
  if definedCIDRsInCfg then
    let definedCIDRsInMergedCfg :=
      definedCIDRs (mergedInboundCIDRv4s v) (mergedInboundCIDRv6s v) in
    if negb definedCIDRsInMergedCfg
    then Ok (setInboundCIDRs v (inboundCIDRv4s cfg) (inboundCIDRv6s cfg))
    else Err (errConflictingCIDRs
                (mergedInboundCIDRsProvider v)
                (mergedInboundCIDRv4s v) (mergedInboundCIDRv6s v)
                ingKey (inboundCIDRv4s cfg) (inboundCIDRv6s cfg))
  else Ok v.

(** Lines 226-234: the SSL policy. *)
Definition mergeSSLPolicy (v : mergeVars) (ingKey : NamespacedName)
    (cfg : listenPortConfig) : result mergeVars :=
  match sslPolicy cfg with
  | Some pol =>
      match mergedSSLPolicy v with
      | None => Ok (setSSLPolicy v pol ingKey)
      | Some mpol =>
          if decide (mpol ≠ pol)
          then Err (errConflictingSSLPolicy (mergedSSLPolicyProvider v) mpol
                                            ingKey pol)
          else Ok v
      end
  | None => Ok v
  end.

(** One iteration of the loop (lines 205-235). *)
Definition loopBody (v : mergeVars) (entry : NamespacedName * listenPortConfig)
    : result mergeVars :=
  let '(ingKey, cfg) := entry in
  v ←? mergeProtocol v ingKey cfg;
  v ←? mergeInboundCIDRs v ingKey cfg;
  v ←? mergeSSLPolicy v ingKey cfg;
  Ok (insertTLSCerts v (tlsCerts cfg)).

(** The [for ... range] statement: a [return] inside the body leaves the
    function with that error. *)
Fixpoint rangeLoop (l : list (NamespacedName * listenPortConfig))
    (v : mergeVars) : result mergeVars :=
  match l with
  | [] => Ok v
  | entry :: l' => v' ←? loopBody v entry; rangeLoop l' v'
  end.

(** Lines 238-256: the check of the protocol, the defaults and the result. *)
Definition finish (defaultSSLPolicy : string) (v : mergeVars)
    : result listenPortConfig :=
  match mergedProtocol v with
  | None => Err errShouldNeverHappen
  | Some p =>
      let noCIDRs := (length (mergedInboundCIDRv4s v) =? 0)%nat
                     && (length (mergedInboundCIDRv6s v) =? 0)%nat in
      let v4 := if noCIDRs then mergedInboundCIDRv4s v ++ ["0.0.0.0/0"]
                else mergedInboundCIDRv4s v in
      let v6 := if noCIDRs then mergedInboundCIDRv6s v ++ ["::/0"]
                else mergedInboundCIDRv6s v in
      let pol := if decide (p = ProtocolHTTPS)
                 then match mergedSSLPolicy v with
                      | None => Some defaultSSLPolicy
                      | Some s => Some s
                      end
                 else mergedSSLPolicy v in
      Ok {| protocol := p;
            inboundCIDRv4s := v4;
            inboundCIDRv6s := v6;
            sslPolicy := pol;
            tlsCerts := sets.List (mergedTLSCerts v) |}
  end.

Definition mergeListenPortConfigs (defaultSSLPolicy : string)
    (listenPortConfigByIngress : list (NamespacedName * listenPortConfig))
    : result listenPortConfig :=
  v ←? rangeLoop listenPortConfigByIngress initVars;
  finish defaultSSLPolicy v.

(** The value [Build] gives the task (line 91). *)
Definition defaultSSLPolicy_Build : string := "ELBSecurityPolicy-2016-08".

(** ** What the loop computes

    [varsOf l] is the value of the local variables after the loop has run
    over the sequence [l] without returning; [consistent l] is the condition
    under which it does so. *)

Abbreviation entry := (NamespacedName * listenPortConfig)%type.

Definition definedEntry (e : entry) : bool :=
  definedCIDRs (inboundCIDRv4s e.2) (inboundCIDRv6s e.2).

Definition hasSSLPolicy (e : entry) : bool :=
  match sslPolicy e.2 with Some _ => true | None => false end.

Definition certsOf (l : list entry) : gset string :=
  ⋃ ((fun e : entry => list_to_set (tlsCerts e.2)) <$> l).

Definition varsOf (l : list entry) : mergeVars :=
  let firstCIDRs := head (filter (fun e => definedEntry e) l) in
  let firstSSL := head (filter (fun e => hasSSLPolicy e) l) in
  {| mergedProtocol := (fun e : entry => protocol e.2) <$> head l;
     mergedProtocolProvider := default zeroNamespacedName (fst <$> head l);
     mergedInboundCIDRv4s :=
       default [] ((fun e : entry => inboundCIDRv4s e.2) <$> firstCIDRs);
     mergedInboundCIDRv6s :=
       default [] ((fun e : entry => inboundCIDRv6s e.2) <$> firstCIDRs);
     mergedInboundCIDRsProvider := zeroNamespacedName;
     mergedSSLPolicy := firstSSL ≫= (fun e : entry => sslPolicy e.2);
     mergedSSLPolicyProvider := default zeroNamespacedName (fst <$> firstSSL);
     mergedTLSCerts := certsOf l |}.

Definition protocolsAgree (l : list entry) : Prop :=
  ∀ e1 e2, e1 ∈ l → e2 ∈ l → protocol e1.2 = protocol e2.2.

Definition cidrsDefinedAtMostOnce (l : list entry) : Prop :=
  (length (filter (fun e => definedEntry e) l) ≤ 1)%nat.

Definition sslPoliciesAgree (l : list entry) : Prop :=
  ∀ e1 e2 p1 p2, e1 ∈ l → e2 ∈ l →
    sslPolicy e1.2 = Some p1 → sslPolicy e2.2 = Some p2 → p1 = p2.

Definition consistent (l : list entry) : Prop :=
  protocolsAgree l ∧ cidrsDefinedAtMostOnce l ∧ sslPoliciesAgree l.

(** The three kinds of conflict the loop reports, each between an entry and
    one that comes later in the sequence. *)
Inductive protocolConflict (l : list entry) : error → Prop :=
| ProtocolConflict i j k1 c1 k2 c2 :
    (i < j)%nat → l !! i = Some (k1, c1) → l !! j = Some (k2, c2) →
    protocol c1 ≠ protocol c2 →
    protocolConflict l
      (errConflictingProtocol k1 (protocol c1) k2 (protocol c2)).

Inductive cidrConflict (l : list entry) : error → Prop :=
| CIDRConflict i j k1 c1 k2 c2 :
    (i < j)%nat → l !! i = Some (k1, c1) → l !! j = Some (k2, c2) →
    definedEntry (k1, c1) = true → definedEntry (k2, c2) = true →
    cidrConflict l
      (errConflictingCIDRs zeroNamespacedName
         (inboundCIDRv4s c1) (inboundCIDRv6s c1)
         k2 (inboundCIDRv4s c2) (inboundCIDRv6s c2)).

Inductive sslPolicyConflict (l : list entry) : error → Prop :=
| SSLPolicyConflict i j k1 c1 p1 k2 c2 p2 :
    (i < j)%nat → l !! i = Some (k1, c1) → l !! j = Some (k2, c2) →
    sslPolicy c1 = Some p1 → sslPolicy c2 = Some p2 → p1 ≠ p2 →
    sslPolicyConflict l (errConflictingSSLPolicy k1 p1 k2 p2).

Definition conflictError (l : list entry) (e : error) : Prop :=
  protocolConflict l e ∨ cidrConflict l e ∨ sslPolicyConflict l e.

(** The conflict, if any, that the entry [x] raises after the loop has run
    over [l]: the three checks of the body, in the order the body makes them. *)
Definition protocolClash (l : list entry) (x : entry) : option error :=
  h ← head l;
  if decide (protocol h.2 ≠ protocol x.2)
  then Some (errConflictingProtocol h.1 (protocol h.2) x.1 (protocol x.2))
  else None.

Definition cidrClash (l : list entry) (x : entry) : option error :=
  h ← head (filter (fun e => definedEntry e) l);
  if definedEntry x
  then Some (errConflictingCIDRs zeroNamespacedName
               (inboundCIDRv4s h.2) (inboundCIDRv6s h.2)
               x.1 (inboundCIDRv4s x.2) (inboundCIDRv6s x.2))
  else None.

Definition sslPolicyClash (l : list entry) (x : entry) : option error :=
  h ← head (filter (fun e => hasSSLPolicy e) l);
  p1 ← sslPolicy h.2;
  p2 ← sslPolicy x.2;
  if decide (p1 ≠ p2)
  then Some (errConflictingSSLPolicy h.1 p1 x.1 p2)
  else None.

Definition clash (l : list entry) (x : entry) : option error :=
  match protocolClash l x with
  | Some e => Some e
  | None =>
      match cidrClash l x with
      | Some e => Some e
      | None => sslPolicyClash l x
      end
  end.

(** ** The build task: [run] and [Build]

    [run] calls methods of the task that live in other files of the package
    ([computeIngressListenPortConfigByPort], [buildLoadBalancer],
    [buildListener], [buildListenerRules], [buildLoadBalancerAddOns]); they
    are parameters of the model, as are the types they exchange.  [World] is
    everything those calls can read and change: the stack, the fields
    [loadBalancer], [managedSG] and [tgByResID] of the task, and the cluster
    and cloud behind the clients.  Each [range] over a map takes its order
    from a parameter, one per statement. *)
Record Collaborators : Type := mkCollaborators {
  Ingress : Type;
  World : Type;
  StringToken : Type;
  LoadBalancer : Type;
  Listener : Type;
  k8s_NamespacedName : Ingress → NamespacedName;
  LoadBalancerARN : LoadBalancer → StringToken;
  ListenerARN : Listener → StringToken;
  computeIngressListenPortConfigByPort :
    Ingress → World → result (gmap Z listenPortConfig) * World;
  buildLoadBalancer :
    gmap Z listenPortConfig → World → result LoadBalancer * World;
  buildListener :
    StringToken → Z → listenPortConfig → list Ingress →
    World → result Listener * World;
  buildListenerRules :
    StringToken → Z → Protocol → list Ingress → World → result () * World;
  buildLoadBalancerAddOns : StringToken → World → result () * World;
  rangeConfigByPortForIngress : gmap Z listenPortConfig → list (Z * listenPortConfig);
  rangeConfigsByPort :
    gmap Z (gmap NamespacedName listenPortConfig) →
    list (Z * gmap NamespacedName listenPortConfig);
  rangeConfigByIngress : gmap NamespacedName listenPortConfig → list entry;
  rangeConfigByPort : gmap Z listenPortConfig → list (Z * listenPortConfig);
}.

(** The fields of [defaultModelBuildTask] that the two methods read
    themselves. *)
Record defaultModelBuildTask (E : Collaborators) : Type := mkTask {
  ingGroup_Members : list (Ingress E);
  defaultSSLPolicy : string;
}.
Arguments ingGroup_Members {E} _.
Arguments defaultSSLPolicy {E} _.

(** Calls that change the world and may fail. *)
Definition M (E : Collaborators) (A : Type) : Type :=
  World E → result A * World E.

Definition mret {E : Collaborators} {A : Type} (a : A) : M E A :=
  fun w => (Ok a, w).

Definition mbind {E : Collaborators} {A B : Type}
    (m : M E A) (k : A → M E B) : M E B :=
  fun w => match m w with
           | (Ok a, w') => k a w'
           | (Err e, w') => (Err e, w')
           end.

Notation "x ←! m ; k" := (mbind m (fun x => k))
  (at level 100, m at next level, k at level 200, right associativity,
   format "x  ←!  m ;  '/' k").

(** The two maps the first loop fills. *)
Record portTables (E : Collaborators) : Type := mkPortTables {
  ingListByPort : gmap Z (list (Ingress E));
  listenPortConfigsByPort : gmap Z (gmap NamespacedName listenPortConfig);
}.
Arguments mkPortTables {E} _ _.
Arguments ingListByPort {E} _.
Arguments listenPortConfigsByPort {E} _.

(** Lines 157-161: one port of one member. *)
Definition addPort {E : Collaborators} (ing : Ingress E) (ingKey : NamespacedName)
    (tabs : portTables E) (pc : Z * listenPortConfig) : portTables E :=
  let '(port, cfg) := pc in
  let ingList := <[port := default [] (ingListByPort tabs !! port) ++ [ing]]>
                   (ingListByPort tabs) in
  let cfgs := match listenPortConfigsByPort tabs !! port with
              | Some _ => listenPortConfigsByPort tabs
              | None => <[port := ∅]> (listenPortConfigsByPort tabs)
              end in
  let cfgs := <[port := <[ingKey := cfg]> (default ∅ (cfgs !! port))]> cfgs in
  mkPortTables ingList cfgs.

(** Lines 150-163: the loop over the members. *)
Fixpoint collectLoop {E : Collaborators} (members : list (Ingress E))
    (tabs : portTables E) : M E (portTables E) :=
  match members with
  | [] => mret tabs
  | ing :: members' =>
      listenPortConfigByPortForIngress ←!
        computeIngressListenPortConfigByPort E ing;
      let ingKey := k8s_NamespacedName E ing in
      collectLoop members'
        (foldl (addPort ing ingKey) tabs
           (rangeConfigByPortForIngress E listenPortConfigByPortForIngress))
  end.

Definition errFailedToMerge (err : error) (port : Z) : error :=
  errors.Wrapf err ("failed to merge listPort config for port: " +:+ fmt.int64 port).

(** Lines 165-171: the merge of every port. *)
Fixpoint mergeLoop {E : Collaborators} (t : defaultModelBuildTask E)
    (ports : list (Z * gmap NamespacedName listenPortConfig))
    (listenPortConfigByPort : gmap Z listenPortConfig)
    : result (gmap Z listenPortConfig) :=
  match ports with
  | [] => Ok listenPortConfigByPort
  | (port, cfgs) :: ports' =>
      match mergeListenPortConfigs (defaultSSLPolicy t)
              (rangeConfigByIngress E cfgs) with
      | Err err => Err (errFailedToMerge err port)
      | Ok mergedCfg =>
          mergeLoop t ports' (<[port := mergedCfg]> listenPortConfigByPort)
      end
  end.

(** Lines 177-186: a listener and its rules for every port. *)
Fixpoint listenerLoop {E : Collaborators} (lb : LoadBalancer E)
    (ingLists : gmap Z (list (Ingress E)))
    (ports : list (Z * listenPortConfig)) : M E () :=
  match ports with
  | [] => mret ()
  | (port, cfg) :: ports' =>
      let ingList := default [] (ingLists !! port) in
      ls ←! buildListener E (LoadBalancerARN E lb) port cfg ingList;
      _ ←! buildListenerRules E (ListenerARN E ls) port (protocol cfg) ingList;
      listenerLoop lb ingLists ports'
  end.

Definition run {E : Collaborators} (t : defaultModelBuildTask E) : M E () :=
  if (length (ingGroup_Members t) =? 0)%nat then mret ()
  else
    tabs ←! collectLoop (ingGroup_Members t) (mkPortTables ∅ ∅);
    listenPortConfigByPort ←!
      (fun w => (mergeLoop t (rangeConfigsByPort E (listenPortConfigsByPort tabs)) ∅, w));
    lb ←! buildLoadBalancer E listenPortConfigByPort;
    _ ←! listenerLoop lb (ingListByPort tabs)
           (rangeConfigByPort E listenPortConfigByPort);
    _ ←! buildLoadBalancerAddOns E (LoadBalancerARN E lb);
    mret ().

(** [Build] (lines 72-108): a task with the fixed defaults, run once; the
    stack and the load balancer are handed out only when [run] succeeds. *)
Definition Build {E : Collaborators} (members : list (Ingress E))
    : World E → result (World E) :=
  fun w =>
    let task := {| ingGroup_Members := members;
                   defaultSSLPolicy := defaultSSLPolicy_Build |} in
    match run task w with
    | (Err err, _) => Err err
    | (Ok _, w') => Ok w'
    end.

(** ** The protection synthesizer

    The synthesizer of [pkg/deploy/shield] is known here through its tests
    and the specification only. *)
Module shield.

(** Modelled from the spec: [core.StringToken] (spec section 3, "Token"), a
    literal or a deferred reference to an attribute of another resource of
    the stack, resolved when the stack is synthesized. *)
Inductive Token : Type :=
| LiteralStringToken (s : string)
| ResourceFieldToken (kind id attribute : string).

(** Modelled from the spec: the values that deferred references have
    taken when the synthesizer runs, and the resolution of a token against
    them; the stack and its resolver are not among the files at hand. *)
Definition Resolved : Type := gmap (string * string * string) string.

Definition Resolve (env : Resolved) (t : Token) : option string :=
  match t with
  | LiteralStringToken s => Some s
  | ResourceFieldToken kind id attribute => env !! (kind, id, attribute)
  end.

(** Modelled from the spec: the desired side-resource [Protection] with its
    [ProtectionSpec] (spec section 3), of [pkg/model/shield], which the tests
    build with [NewProtection]. *)
Record ProtectionSpec : Type := mkProtectionSpec {
  Enabled : bool;
  ResourceARN : Token;
}.

Record Protection : Type := mkProtection {
  ResourceID : string;
  Spec : ProtectionSpec;
}.

(** Modelled from the spec: the live record [ProtectionInfo] (spec
    section 3). *)
Record ProtectionInfo : Type := mkProtectionInfo {
  Name : string;
  ID : string;
}.

(** Modelled from the spec: the ownership marker (spec section 6), with the
    text the tests expect in [CreateProtection]. *)
Definition protectionName : string := "managed by aws-load-balancer-controller".

(** Modelled from the spec: the [ProtectionManager] capability (spec
    section 6): [get] answers with the live record or not-found, [create]
    with the new identifier or an error, [delete] with an error or none.
    [Cloud] is the provider's state. *)
Record ProtectionManager (Cloud : Type) : Type := mkProtectionManager {
  GetProtection : string → Cloud → option ProtectionInfo;
  CreateProtection : string → string → Cloud → result string * Cloud;
  DeleteProtection : string → string → Cloud → option error * Cloud;
}.
Arguments GetProtection {Cloud} _ _ _.
Arguments CreateProtection {Cloud} _ _ _ _.
Arguments DeleteProtection {Cloud} _ _ _ _.

(** The calls a pass makes on the manager. *)
Inductive call : Type :=
| CallGet (resourceARN : string)
| CallCreate (resourceARN name : string)
| CallDelete (resourceARN protectionID : string).

Definition isCreateOrDelete (c : call) : bool :=
  match c with
  | CallGet _ => false
  | CallCreate _ _ => true
  | CallDelete _ _ => true
  end.

(** What a pass, or the part of it for one resource, leaves behind: the
    calls made, the errors met and the provider's state. *)
Record outcome (Cloud : Type) : Type := mkOutcome {
  calls : list call;
  errs : list error;
  cloud : Cloud;
}.
Arguments mkOutcome {Cloud} _ _ _.
Arguments calls {Cloud} _.
Arguments errs {Cloud} _.
Arguments cloud {Cloud} _.

(** Modelled from the spec: the reconciliation of one desired resource
    (spec section 4.4, step 2); the synthesizer itself is not among the
    files at hand. *)
Definition reconcile {Cloud : Type} (pm : ProtectionManager Cloud)
    (env : Resolved) (p : Protection) (c : Cloud) : outcome Cloud :=
  match Resolve env (ResourceARN (Spec p)) with
  | None => mkOutcome [] [] c
  | Some arn =>
      match GetProtection pm arn c with
      | None =>
          if Enabled (Spec p) then
            match CreateProtection pm arn protectionName c with
            | (Ok _, c') => mkOutcome [CallGet arn; CallCreate arn protectionName] [] c'
            | (Err e, c') => mkOutcome [CallGet arn; CallCreate arn protectionName] [e] c'
            end
          else mkOutcome [CallGet arn] [] c
      | Some info =>
          if decide (Name info = protectionName) then
            if Enabled (Spec p) then mkOutcome [CallGet arn] [] c
            else
              match DeleteProtection pm arn (ID info) c with
              | (None, c') => mkOutcome [CallGet arn; CallDelete arn (ID info)] [] c'
              | (Some e, c') => mkOutcome [CallGet arn; CallDelete arn (ID info)] [e] c'
              end
          else mkOutcome [CallGet arn] [] c
      end
  end.

(** Modelled from the spec: one synthesizer pass over the desired resources
    of the stack (spec section 4.4, steps 1 and 3): every resource is
    reconciled in turn and the errors are collected. *)
Fixpoint Synthesize {Cloud : Type} (pm : ProtectionManager Cloud)
    (env : Resolved) (resources : list Protection) (c : Cloud) : outcome Cloud :=
  match resources with
  | [] => mkOutcome [] [] c
  | p :: resources' =>
      let o1 := reconcile pm env p c in
      let o2 := Synthesize pm env resources' (cloud o1) in
      mkOutcome (calls o1 ++ calls o2) (errs o1 ++ errs o2) (cloud o2)
  end.

(** A resource whose live record exists without the ownership marker. *)
Definition foreign {Cloud : Type} (pm : ProtectionManager Cloud)
    (env : Resolved) (c : Cloud) (p : Protection) : Prop :=
  ∃ arn info, Resolve env (ResourceARN (Spec p)) = Some arn
              ∧ GetProtection pm arn c = Some info
              ∧ Name info ≠ protectionName.

End shield.

(** Two sequences of entries that differ at most in the certificates the
    members declare. *)
Definition sameButCerts (x y : entry) : Prop :=
  x.1 = y.1
  ∧ protocol x.2 = protocol y.2
  ∧ inboundCIDRv4s x.2 = inboundCIDRv4s y.2
  ∧ inboundCIDRv6s x.2 = inboundCIDRv6s y.2
  ∧ sslPolicy x.2 = sslPolicy y.2.

(** Two values of the loop variables that differ at most in the set of
    certificates. *)
Definition eqButCerts (v v' : mergeVars) : Prop :=
  mergedProtocol v = mergedProtocol v'
  ∧ mergedProtocolProvider v = mergedProtocolProvider v'
  ∧ mergedInboundCIDRv4s v = mergedInboundCIDRv4s v'
  ∧ mergedInboundCIDRv6s v = mergedInboundCIDRv6s v'
  ∧ mergedInboundCIDRsProvider v = mergedInboundCIDRsProvider v'
  ∧ mergedSSLPolicy v = mergedSSLPolicy v'
  ∧ mergedSSLPolicyProvider v = mergedSSLPolicyProvider v'.

(** Two results that agree on success or failure, on the error, and on the
    variables except the certificates. *)
Definition agreeButCerts (r r' : result mergeVars) : Prop :=
  match r, r' with
  | Ok v, Ok v' => eqButCerts v v'
  | Err e, Err e' => e = e'
  | _, _ => False
  end.

(** What the two tables of the first loop of [run] have in common: a port
    is a key of both or of neither, the members listed for a port are at least
    one, and the configurations kept for the port are keyed by the names of
    those members. *)
Definition tablesInv {E : Collaborators} (tabs : portTables E) : Prop :=
  ∀ port,
    match ingListByPort tabs !! port, listenPortConfigsByPort tabs !! port with
    | Some ings, Some cfgs =>
        ings ≠ []
        ∧ ∀ k, is_Some (cfgs !! k)
               ↔ ∃ ing, ing ∈ ings ∧ k8s_NamespacedName E ing = k
    | None, None => True
    | _, _ => False
    end.

(** ** Sample members and configurations *)
Module sample.

Definition ingA : NamespacedName := mkNamespacedName "ns" "a".
Definition ingB : NamespacedName := mkNamespacedName "ns" "b".
Definition ingC : NamespacedName := mkNamespacedName "ns" "c".

(** Plain HTTP, open to one private range. *)
Definition httpRestricted : listenPortConfig :=
  mkListenPortConfig ProtocolHTTP ["10.0.0.0/8"] [] None [].

(** Plain HTTP, nothing else set. *)
Definition httpPlain : listenPortConfig :=
  mkListenPortConfig ProtocolHTTP [] [] None [].

(** HTTPS with one certificate each. *)
Definition httpsX : listenPortConfig :=
  mkListenPortConfig ProtocolHTTPS [] [] None ["x"].
Definition httpsY : listenPortConfig :=
  mkListenPortConfig ProtocolHTTPS [] [] None ["y"].

(** Collaborators for a single listener on port 443 per member, in which
    the configuration of member [b] cannot be computed; nothing else fails
    and the world carries no state. *)
Definition errInvalidAnnotation : error := errors.New "invalid annotation".

Definition failingAtB : Collaborators :=
  {| Ingress := NamespacedName;
     World := ();
     StringToken := string;
     LoadBalancer := ();
     Listener := ();
     k8s_NamespacedName := fun ing => ing;
     LoadBalancerARN := fun _ => "lb-arn";
     ListenerARN := fun _ => "ls-arn";
     computeIngressListenPortConfigByPort := fun ing w =>
       if decide (ing = ingB) then (Err errInvalidAnnotation, w)
       else (Ok {[ 443%Z := httpPlain ]}, w);
     buildLoadBalancer := fun _ w => (Ok (), w);
     buildListener := fun _ _ _ _ w => (Ok (), w);
     buildListenerRules := fun _ _ _ _ w => (Ok (), w);
     buildLoadBalancerAddOns := fun _ w => (Ok (), w);
     rangeConfigByPortForIngress := map_to_list;
     rangeConfigsByPort := map_to_list;
     rangeConfigByIngress := map_to_list;
     rangeConfigByPort := map_to_list |}.

(** Collaborators under which member [c] listens on port 443 with HTTPS and
    every other member with HTTP; nothing fails. *)
Definition differingAtC : Collaborators :=
  {| Ingress := NamespacedName;
     World := ();
     StringToken := string;
     LoadBalancer := ();
     Listener := ();
     k8s_NamespacedName := fun ing => ing;
     LoadBalancerARN := fun _ => "lb-arn";
     ListenerARN := fun _ => "ls-arn";
     computeIngressListenPortConfigByPort := fun ing w =>
       if decide (ing = ingC) then (Ok {[ 443%Z := httpsX ]}, w)
       else (Ok {[ 443%Z := httpPlain ]}, w);
     buildLoadBalancer := fun _ w => (Ok (), w);
     buildListener := fun _ _ _ _ w => (Ok (), w);
     buildListenerRules := fun _ _ _ _ w => (Ok (), w);
     buildLoadBalancerAddOns := fun _ w => (Ok (), w);
     rangeConfigByPortForIngress := map_to_list;
     rangeConfigsByPort := map_to_list;
     rangeConfigByIngress := map_to_list;
     rangeConfigByPort := map_to_list |}.

(** A protection manager over a finite map from resource ARN to live
    record, in the place of the mock of the tests: created records get the
    identifier "new-id", and no call fails. *)
Definition mapManager : shield.ProtectionManager (gmap string shield.ProtectionInfo) :=
  {| shield.GetProtection := fun arn c => c !! arn;
     shield.CreateProtection := fun arn name c =>
       (Ok "new-id", <[arn := shield.mkProtectionInfo name "new-id"]> c);
     shield.DeleteProtection := fun arn _ c => (None, delete arn c) |}.

(** The live state and the desired resources of
    [TestProtectionSynthesizerIgnoresUnknownProtection], and the same
    resource enabled. *)
Definition someoneElse : gmap string shield.ProtectionInfo :=
  {[ "arn" := shield.mkProtectionInfo "managed by someone-else" "id" ]}.

Definition fooDisabled : shield.Protection :=
  shield.mkProtection "foo"
    (shield.mkProtectionSpec false (shield.LiteralStringToken "arn")).

Definition fooEnabled : shield.Protection :=
  shield.mkProtection "foo"
    (shield.mkProtectionSpec true (shield.LiteralStringToken "arn")).

End sample.

(** Collaborators under which every member listens on port 443 with HTTP
    and the listener cannot be built. *)
Module sampleListener.

Definition errNoCertificate : error := errors.New "no certificate found".

Definition failing : Collaborators :=
  {| Ingress := NamespacedName;
     World := list string;
     StringToken := string;
     LoadBalancer := ();
     Listener := ();
     k8s_NamespacedName := fun ing => ing;
     LoadBalancerARN := fun _ => "lb-arn";
     ListenerARN := fun _ => "ls-arn";
     computeIngressListenPortConfigByPort := fun ing w =>
       (Ok {[ 443%Z := sample.httpPlain ]}, w);
     buildLoadBalancer := fun _ w => (Ok (), w ++ ["loadBalancer"]);
     buildListener := fun _ _ _ _ w => (Err errNoCertificate, w);
     buildListenerRules := fun _ _ _ _ w => (Ok (), w ++ ["rules"]);
     buildLoadBalancerAddOns := fun _ w => (Ok (), w ++ ["addOns"]);
     rangeConfigByPortForIngress := map_to_list;
     rangeConfigsByPort := map_to_list;
     rangeConfigByIngress := map_to_list;
     rangeConfigByPort := map_to_list |}.

End sampleListener.

(** ** Basic facts about the loop *)

Lemma rbind_Ok_inv {A B : Type} (r : result A) (k : A → result B) (b : B) :
  rbind r k = Ok b → ∃ a, r = Ok a ∧ k a = Ok b.
Proof. destruct r as [a|e]; simpl; [eauto | discriminate]. Qed.

Lemma rangeLoop_app (l1 l2 : list entry) (v : mergeVars) :
  rangeLoop (l1 ++ l2) v = (v' ←? rangeLoop l1 v; rangeLoop l2 v').
Proof.
  revert v. induction l1 as [|x l1 IH]; intros v; simpl; [done|].
  destruct (loopBody v x) as [v'|e]; simpl; [apply IH | done].
Qed.

Lemma rangeLoop_snoc (l : list entry) (x : entry) (v : mergeVars) :
  rangeLoop (l ++ [x]) v = (v' ←? rangeLoop l v; loopBody v' x).
Proof.
  rewrite rangeLoop_app. destruct (rangeLoop l v) as [v'|e]; simpl; [|done].
  by destruct (loopBody v' x).
Qed.

Lemma head_snoc {A : Type} (l : list A) (x : A) :
  head (l ++ [x]) = match head l with Some h => Some h | None => Some x end.
Proof. by destruct l. Qed.

Lemma filter_snoc {A : Type} (P : A → Prop) `{∀ a, Decision (P a)}
    (l : list A) (x : A) :
  filter P (l ++ [x]) = filter P l ++ (if decide (P x) then [x] else []).
Proof.
  rewrite filter_app. f_equal.
Qed.

Lemma head_filter_holds {A : Type} (P : A → Prop) `{∀ a, Decision (P a)}
    (l : list A) (x : A) :
  head (filter P l) = Some x → P x ∧ x ∈ l.
Proof.
  intros Hh. apply head_Some_elem_of in Hh.
  by apply list_elem_of_filter in Hh.
Qed.

Lemma certsOf_snoc (l : list entry) (x : entry) :
  certsOf (l ++ [x]) = sets.Insert (certsOf l) (tlsCerts x.2).
Proof.
  unfold certsOf, sets.Insert. rewrite fmap_app, union_list_app_L. simpl.
  by rewrite (right_id_L ∅ (∪)).
Qed.

Lemma elem_of_certsOf (l : list entry) (s : string) :
  s ∈ certsOf l ↔ ∃ e, e ∈ l ∧ s ∈ tlsCerts e.2.
Proof.
  unfold certsOf. rewrite elem_of_union_list. split.
  - intros (X & HX & Hs). apply list_elem_of_fmap in HX as (e & -> & He).
    exists e. split; [done|]. by apply elem_of_list_to_set in Hs.
  - intros (e & He & Hs). exists (list_to_set (tlsCerts e.2)). split.
    + apply list_elem_of_fmap. by exists e.
    + by apply elem_of_list_to_set.
Qed.

(** Whether the loop has adopted a CIDR definition. *)
Lemma definedCIDRs_varsOf (l : list entry) :
  definedCIDRs (mergedInboundCIDRv4s (varsOf l)) (mergedInboundCIDRv6s (varsOf l))
  = match filter (fun e => definedEntry e) l with [] => false | _ => true end.
Proof.
  simpl. destruct (filter _ l) as [|e f] eqn:Hf; [done|]. simpl.
  assert (Hh : head (filter (fun e => definedEntry e) l) = Some e) by by rewrite Hf.
  apply head_filter_holds in Hh as [He _]. by apply Is_true_true in He.
Qed.

(** ** One iteration, started from the variables the loop has computed *)

Lemma head_lookup_0 {A : Type} (l : list A) : head l = l !! 0%nat.
Proof. by destruct l. Qed.

Lemma head_filter_lookup {A : Type} (P : A → Prop) `{∀ a, Decision (P a)}
    (l : list A) (x : A) :
  head (filter P l) = Some x → P x ∧ ∃ i, l !! i = Some x.
Proof.
  intros Hh. apply head_filter_holds in Hh as [HP Hin]. split; [done|].
  by apply list_elem_of_lookup.
Qed.

Lemma snoc_lookup_earlier {A : Type} (l : list A) (x y : A) (i : nat) :
  l !! i = Some y →
  (i < length l)%nat ∧ (l ++ [x]) !! i = Some y
  ∧ (l ++ [x]) !! length l = Some x.
Proof.
  intros Hi. split; [by eapply lookup_lt_Some|]. split.
  - by apply lookup_app_l_Some.
  - by rewrite list_lookup_middle.
Qed.

Lemma head_app_if {A : Type} (l : list A) (P : Prop) `{Decision P} (x : A) :
  head (l ++ (if decide P then [x] else []))
  = match head l with
    | Some h => Some h
    | None => if decide P then Some x else None
    end.
Proof. destruct l; [by destruct (decide P) | done]. Qed.

Lemma loopBody_varsOf (l : list entry) (x : entry) :
  loopBody (varsOf l) x
  = match clash l x with
    | Some e => Err e
    | None => Ok (varsOf (l ++ [x]))
    end.
Proof.
  destruct x as [k c].
  assert (Hssl : ∀ h, head (filter (fun e => hasSSLPolicy e) l) = Some h →
                      ∃ p, sslPolicy h.2 = Some p).
  { intros h Hh. apply head_filter_holds in Hh as [Hh _].
    unfold hasSSLPolicy in Hh. destruct (sslPolicy h.2); [eauto | done]. }
  assert (Hd : ∀ h, head (filter (fun e => definedEntry e) l) = Some h →
                    definedEntry h = true).
  { intros h Hh. apply head_filter_holds in Hh as [Hh _].
    by apply Is_true_true in Hh. }
  unfold clash, protocolClash, cidrClash, sslPolicyClash, loopBody,
    mergeProtocol, mergeInboundCIDRs, mergeSSLPolicy, varsOf.
  rewrite head_snoc, !filter_snoc, !head_app_if, certsOf_snoc.
  unfold hasSSLPolicy, definedEntry.
  destruct c as [p v4 v6 pol certs]; simpl.
  destruct (head l) as [[k0 c0]|];
    destruct (head (filter _ l)) as [[k1 c1]|];
    destruct (head (filter _ l)) as [[k2 c2]|];
    simpl.
  all: try (specialize (Hd _ eq_refl); unfold definedEntry in Hd; simpl in Hd).
  all: try (destruct (Hssl _ eq_refl) as [q Hq]; simpl in Hq; rewrite Hq).
  all: clear Hssl.
  all: destruct pol as [pol|], (definedCIDRs v4 v6); simpl.
  all: repeat case_decide; simpl; try rewrite Hd; simpl; try done.
  all: repeat case_decide; simpl; try done.
  all: subst; done.
Qed.

(** ** Consistency of a sequence, one entry at a time *)

Lemma consistent_nil : consistent [].
Proof.
  split; [|split].
  - intros e1 e2 H1. by apply elem_of_nil in H1.
  - unfold cidrsDefinedAtMostOnce. simpl. lia.
  - intros e1 e2 p1 p2 H1. by apply elem_of_nil in H1.
Qed.

Lemma consistent_app_l (l1 l2 : list entry) :
  consistent (l1 ++ l2) → consistent l1.
Proof.
  intros (Hp & Hc & Hs). split; [|split].
  - intros e1 e2 H1 H2. apply Hp; apply elem_of_app; by left.
  - unfold cidrsDefinedAtMostOnce in *. rewrite filter_app, length_app in Hc. lia.
  - intros e1 e2 p1 p2 H1 H2. apply Hs; apply elem_of_app; by left.
Qed.

Lemma consistent_snoc_clash (l : list entry) (x : entry) :
  consistent (l ++ [x]) → clash l x = None.
Proof.
  intros (Hp & Hc & Hs). unfold clash.
  assert (Hx : x ∈ l ++ [x]) by (apply elem_of_app; right; by apply list_elem_of_singleton).
  assert (HP : protocolClash l x = None).
  { unfold protocolClash. destruct (head l) as [h|] eqn:Hh; simpl; [|done].
    apply head_Some_elem_of in Hh. case_decide as Hne; [|done].
    destruct Hne. apply Hp; [|done]. apply elem_of_app. by left. }
  assert (HC : cidrClash l x = None).
  { unfold cidrClash. unfold cidrsDefinedAtMostOnce in Hc.
    rewrite filter_snoc, length_app in Hc.
    destruct (filter _ l) as [|h f]; simpl in *; [done|].
    destruct (definedEntry x); [|done]. simpl in Hc. lia. }
  assert (HS : sslPolicyClash l x = None).
  { unfold sslPolicyClash.
    destruct (head (filter _ l)) as [h|] eqn:Hh; simpl; [|done].
    apply head_filter_holds in Hh as [_ Hh].
    destruct (sslPolicy h.2) as [p1|] eqn:H1; simpl; [|done].
    destruct (sslPolicy x.2) as [p2|] eqn:H2; simpl; [|done].
    case_decide as Hne; [|done]. destruct Hne.
    eapply (Hs h x); eauto. apply elem_of_app. by left. }
  by rewrite HP, HC.
Qed.

Lemma clash_None_consistent (l : list entry) (x : entry) :
  consistent l → clash l x = None → consistent (l ++ [x]).
Proof.
  intros (Hp & Hc & Hs) Hcl. unfold clash in Hcl.
  destruct (protocolClash l x) eqn:HP; [done|].
  destruct (cidrClash l x) eqn:HC; [done|].
  split; [|split].
  - assert (Hhx : ∀ e, e ∈ l → protocol e.2 = protocol x.2).
    { intros e He. unfold protocolClash in HP.
      destruct (head l) as [h|] eqn:Hh; simpl in HP.
      - case_decide as Hne; [done|].
        rewrite <- Hne. apply Hp; [done|]. by apply head_Some_elem_of.
      - apply head_None in Hh. subst l. by apply elem_of_nil in He. }
    intros e1 e2 H1 H2.
    apply elem_of_app in H1 as [H1|H1]; apply elem_of_app in H2 as [H2|H2];
      try apply list_elem_of_singleton in H1;
      try apply list_elem_of_singleton in H2; subst; auto.
    symmetry; auto.
  - unfold cidrsDefinedAtMostOnce in *. rewrite filter_snoc, length_app.
    unfold cidrClash in HC.
    destruct (filter _ l) as [|h f]; simpl in *.
    + case_decide; simpl; lia.
    + destruct (definedEntry x); [done|]. simpl. lia.
  - assert (Hhx : ∀ e p1 p2, e ∈ l → sslPolicy e.2 = Some p1 →
                             sslPolicy x.2 = Some p2 → p1 = p2).
    { intros e p1 p2 He H1 H2. unfold sslPolicyClash in Hcl.
      destruct (head (filter _ l)) as [h|] eqn:Hh; simpl in Hcl.
      - apply head_filter_holds in Hh as [Hh1 Hh2].
        unfold hasSSLPolicy in Hh1.
        destruct (sslPolicy h.2) as [q|] eqn:Hq; [|done]. simpl in Hcl.
        rewrite H2 in Hcl. simpl in Hcl.
        case_decide as Hne; [done|]. subst p2.
        eapply (Hs e h); eauto.
      - apply head_None in Hh.
        assert (Hin : e ∈ filter (fun e => hasSSLPolicy e) l).
        { apply list_elem_of_filter. split; [|done].
          unfold hasSSLPolicy. by rewrite H1. }
        rewrite Hh in Hin. by apply elem_of_nil in Hin. }
    intros e1 e2 p1 p2 H1 H2 Hp1 Hp2.
    apply elem_of_app in H1 as [H1|H1]; apply elem_of_app in H2 as [H2|H2];
      try apply list_elem_of_singleton in H1;
      try apply list_elem_of_singleton in H2; subst; eauto.
    + symmetry; eauto.
    + congruence.
Qed.

(** ** The loop, from the initial variables *)

Lemma rangeLoop_consistent (l : list entry) :
  consistent l → rangeLoop l initVars = Ok (varsOf l).
Proof.
  induction l as [|x l IH] using rev_ind; intros Hc; [done|].
  rewrite rangeLoop_snoc, (IH (consistent_app_l _ _ Hc)). simpl.
  by rewrite loopBody_varsOf, (consistent_snoc_clash _ _ Hc).
Qed.

Lemma rangeLoop_Ok_inv (l : list entry) (v : mergeVars) :
  rangeLoop l initVars = Ok v → consistent l ∧ v = varsOf l.
Proof.
  revert v. induction l as [|x l IH] using rev_ind; intros v Hv.
  - simpl in Hv. simplify_eq. split; [apply consistent_nil | done].
  - rewrite rangeLoop_snoc in Hv.
    apply rbind_Ok_inv in Hv as (v0 & Hv0 & Hx).
    apply IH in Hv0 as [Hc ->]. rewrite loopBody_varsOf in Hx.
    destruct (clash l x) eqn:Hcl; [done|]. split; [|congruence].
    by apply clash_None_consistent.
Qed.

Lemma rangeLoop_first_clash (pre post : list entry) (x : entry) (e : error) :
  consistent pre → clash pre x = Some e →
  rangeLoop (pre ++ x :: post) initVars = Err e.
Proof.
  intros Hc Hcl. rewrite rangeLoop_app, (rangeLoop_consistent _ Hc). simpl.
  by rewrite loopBody_varsOf, Hcl.
Qed.

Lemma rangeLoop_Err_inv (l : list entry) (e : error) :
  rangeLoop l initVars = Err e →
  ∃ pre x post, l = pre ++ x :: post ∧ consistent pre ∧ clash pre x = Some e.
Proof.
  induction l as [|x l IH] using rev_ind; intros He; [done|].
  rewrite rangeLoop_snoc in He.
  destruct (rangeLoop l initVars) as [v|e'] eqn:Hl; simpl in He.
  - apply rangeLoop_Ok_inv in Hl as [Hc ->]. rewrite loopBody_varsOf in He.
    destruct (clash l x) as [e'|] eqn:Hcl; [|done].
    exists l, x, []. by simplify_eq.
  - simplify_eq. destruct (IH eq_refl) as (pre & y & post & -> & Hc & Hcl).
    exists pre, y, (post ++ [x]). by rewrite <- app_assoc.
Qed.

(** The loop runs to its end exactly on the consistent sequences. *)
Lemma rangeLoop_isOk (l : list entry) :
  isOk (rangeLoop l initVars) = true ↔ consistent l.
Proof.
  split.
  - destruct (rangeLoop l initVars) as [v|e] eqn:Hl; [|done].
    intros _. by apply rangeLoop_Ok_inv in Hl as [? _].
  - intros Hc. by rewrite (rangeLoop_consistent _ Hc).
Qed.

(** ** The conflicts the loop reports *)

Lemma clash_conflictError (l : list entry) (x : entry) (e : error) :
  clash l x = Some e → conflictError (l ++ [x]) e.
Proof.
  destruct x as [k c]. unfold clash, conflictError. intros Hcl.
  destruct (protocolClash l (k, c)) as [e1|] eqn:HP.
  { left. simplify_eq. unfold protocolClash in HP.
    destruct (head l) as [[k0 c0]|] eqn:Hh; simpl in HP; [|done].
    case_decide as Hne; [|done]. simplify_eq.
    rewrite head_lookup_0 in Hh.
    destruct (snoc_lookup_earlier l (k, c) _ _ Hh) as (Hlt & H1 & H2).
    by eapply (ProtocolConflict _ 0%nat (length l)). }
  destruct (cidrClash l (k, c)) as [e1|] eqn:HC.
  { right; left. simplify_eq. unfold cidrClash in HC.
    destruct (head (filter _ l)) as [[k0 c0]|] eqn:Hh; simpl in HC; [|done].
    destruct (definedEntry (k, c)) eqn:Hd; [|done]. simplify_eq.
    apply head_filter_lookup in Hh as (Hd0 & i & Hi).
    destruct (snoc_lookup_earlier l (k, c) _ _ Hi) as (Hlt & H1 & H2).
    eapply (CIDRConflict _ i (length l)); eauto. by apply Is_true_true. }
  right; right. unfold sslPolicyClash in Hcl.
  destruct (head (filter _ l)) as [[k0 c0]|] eqn:Hh; simpl in Hcl; [|done].
  destruct (sslPolicy c0) as [p1|] eqn:Hp1; simpl in Hcl; [|done].
  destruct (sslPolicy c) as [p2|] eqn:Hp2; simpl in Hcl; [|done].
  case_decide as Hne; [|done]. simplify_eq.
  apply head_filter_lookup in Hh as (_ & i & Hi).
  destruct (snoc_lookup_earlier l (k, c) _ _ Hi) as (Hlt & H1 & H2).
  by eapply (SSLPolicyConflict _ i (length l)).
Qed.

Lemma conflictError_app_l (l l' : list entry) (e : error) :
  conflictError l e → conflictError (l ++ l') e.
Proof.
  intros [H|[H|H]]; [left|right;left|right;right]; destruct H;
    econstructor; eauto using lookup_app_l_Some.
Qed.

Lemma two_defined_length (l : list entry) (i j : nat) (e1 e2 : entry) :
  (i < j)%nat → l !! i = Some e1 → l !! j = Some e2 →
  definedEntry e1 = true → definedEntry e2 = true →
  (2 ≤ length (filter (fun e => definedEntry e) l))%nat.
Proof.
  intros Hij H1 H2 Hd1 Hd2.
  rewrite <- (take_drop_middle l i e1 H1), filter_app, filter_cons_True
    by by apply Is_true_true.
  assert (Hin : e2 ∈ filter (fun e => definedEntry e) (drop (S i) l)).
  { apply list_elem_of_filter. split; [by apply Is_true_true|].
    apply list_elem_of_lookup. exists (j - S i)%nat.
    rewrite lookup_drop. by replace (S i + (j - S i))%nat with j by lia. }
  destruct (filter _ (drop (S i) l)); [by apply elem_of_nil in Hin|].
  rewrite length_app. simpl. lia.
Qed.

Lemma conflictError_inconsistent (l : list entry) (e : error) :
  conflictError l e → ¬ consistent l.
Proof.
  intros H (Hp & Hc & Hs). destruct H as [H|[H|H]]; destruct H.
  - match goal with Hne : protocol _ ≠ protocol _ |- _ => apply Hne end.
    eapply (Hp (_, _) (_, _)); eapply list_elem_of_lookup_2; eauto.
  - unfold cidrsDefinedAtMostOnce in Hc.
    pose proof (two_defined_length l i j _ _ ltac:(eassumption)
                  ltac:(eassumption) ltac:(eassumption)
                  ltac:(eassumption) ltac:(eassumption)). lia.
  - match goal with Hne : _ ≠ _ |- _ => apply Hne end.
    eapply (Hs (_, _) (_, _)); eauto; eapply list_elem_of_lookup_2; eauto.
Qed.

Lemma rangeLoop_Err_conflict (l : list entry) (e : error) :
  rangeLoop l initVars = Err e → conflictError l e.
Proof.
  intros He. apply rangeLoop_Err_inv in He as (pre & x & post & -> & _ & Hcl).
  replace (pre ++ x :: post) with ((pre ++ [x]) ++ post)
    by by rewrite <- app_assoc.
  by apply conflictError_app_l, clash_conflictError.
Qed.

(** ** The whole function *)

Lemma merge_unfold (d : string) (l : list entry) :
  mergeListenPortConfigs d l
  = match rangeLoop l initVars with
    | Ok v => finish d v
    | Err e => Err e
    end.
Proof. done. Qed.

Lemma mergedProtocol_varsOf_nonempty (l : list entry) :
  l ≠ [] → ∃ x, head l = Some x ∧ mergedProtocol (varsOf l) = Some (protocol x.2).
Proof. destruct l as [|x l]; [done|]. intros _. by exists x. Qed.

Lemma finish_Err_inv (d : string) (v : mergeVars) (e : error) :
  finish d v = Err e → mergedProtocol v = None ∧ e = errShouldNeverHappen.
Proof. unfold finish. destruct (mergedProtocol v); [done|]. by intros [= <-]. Qed.

Lemma merge_Ok_inv (d : string) (l : list entry) (r : listenPortConfig) :
  mergeListenPortConfigs d l = Ok r →
  consistent l ∧ l ≠ [] ∧ finish d (varsOf l) = Ok r.
Proof.
  rewrite merge_unfold. destruct (rangeLoop l initVars) as [v|e] eqn:Hl; [|done].
  apply rangeLoop_Ok_inv in Hl as [Hc ->]. intros Hf.
  split; [done|]. split; [|done]. by intros ->.
Qed.

Lemma merge_consistent (d : string) (l : list entry) :
  consistent l → l ≠ [] → mergeListenPortConfigs d l = finish d (varsOf l)
  ∧ isOk (mergeListenPortConfigs d l) = true.
Proof.
  intros Hc Hne. rewrite merge_unfold, (rangeLoop_consistent _ Hc).
  split; [done|]. unfold finish.
  by destruct (mergedProtocol_varsOf_nonempty l Hne) as (x & _ & ->).
Qed.

Lemma merge_Err_inv (d : string) (l : list entry) (e : error) :
  mergeListenPortConfigs d l = Err e →
  (l = [] ∧ e = errShouldNeverHappen) ∨ (l ≠ [] ∧ rangeLoop l initVars = Err e).
Proof.
  rewrite merge_unfold. destruct (rangeLoop l initVars) as [v|e'] eqn:Hl.
  - apply rangeLoop_Ok_inv in Hl as [Hc ->]. intros Hf.
    apply finish_Err_inv in Hf as [Hp ->]. left. split; [|done].
    destruct l; [done|]. discriminate.
  - intros [= ->]. right. split; [|done]. by intros ->.
Qed.

Lemma merge_isOk (d : string) (l : list entry) :
  isOk (mergeListenPortConfigs d l) = true ↔ consistent l ∧ l ≠ [].
Proof.
  split.
  - destruct (mergeListenPortConfigs d l) as [r|e] eqn:Hm; [|done].
    intros _. by apply merge_Ok_inv in Hm as (? & ? & _).
  - intros [Hc Hne]. by apply merge_consistent.
Qed.

(** ** The text of the errors *)

Lemma prefix_empty (s : string) : String.prefix "" s = true.
Proof. by destruct s. Qed.

Ltac solve_prefix := simpl; first [done | apply prefix_empty].

Lemma errConflictingProtocol_prefix k1 p1 k2 p2 :
  String.prefix "conflicting protocol, "
    (errors.Error (errConflictingProtocol k1 p1 k2 p2)) = true.
Proof. solve_prefix. Qed.

Lemma errConflictingCIDRs_prefix k1 a4 a6 k2 b4 b6 :
  String.prefix "conflicting sslPolicy, "
    (errors.Error (errConflictingCIDRs k1 a4 a6 k2 b4 b6)) = true.
Proof. solve_prefix. Qed.

Lemma errConflictingSSLPolicy_prefix k1 p1 k2 p2 :
  String.prefix "conflicting sslPolicy, "
    (errors.Error (errConflictingSSLPolicy k1 p1 k2 p2)) = true.
Proof. solve_prefix. Qed.

Lemma conflictError_prefix (l : list entry) (e : error) :
  conflictError l e →
  errors.kindOf e = errors.KFundamental
  ∧ String.prefix "conflicting " (errors.Error e) = true.
Proof. intros [H|[H|H]]; destruct H; (split; [done | solve_prefix]). Qed.

(** ** Which check raised the conflict *)

Lemma clash_cases (l : list entry) (x : entry) (e : error) :
  clash l x = Some e →
  protocolClash l x = Some e
  ∨ (protocolClash l x = None ∧ cidrClash l x = Some e)
  ∨ (protocolClash l x = None ∧ cidrClash l x = None
     ∧ sslPolicyClash l x = Some e).
Proof.
  unfold clash. destruct (protocolClash l x); [by left|].
  destruct (cidrClash l x); [right; by left|]. right; by right.
Qed.

Lemma protocolClash_conflict (l : list entry) (x : entry) (e : error) :
  protocolClash l x = Some e → protocolConflict (l ++ [x]) e.
Proof.
  intros HP. pose proof (clash_conflictError l x e) as Hc.
  unfold clash in Hc. rewrite HP in Hc. destruct (Hc eq_refl) as [H|[H|H]]; [done| |].
  - destruct H. unfold protocolClash in HP.
    destruct (head l) as [h|]; simpl in HP; [|done]. by case_decide.
  - destruct H. unfold protocolClash in HP.
    destruct (head l) as [h|]; simpl in HP; [|done]. by case_decide.
Qed.

Lemma sslPolicyClash_conflict (l : list entry) (x : entry) (e : error) :
  sslPolicyClash l x = Some e → sslPolicyConflict (l ++ [x]) e.
Proof.
  destruct x as [k c]. unfold sslPolicyClash. intros Hcl.
  destruct (head (filter _ l)) as [[k0 c0]|] eqn:Hh; simpl in Hcl; [|done].
  destruct (sslPolicy c0) as [p1|] eqn:Hp1; simpl in Hcl; [|done].
  destruct (sslPolicy c) as [p2|] eqn:Hp2; simpl in Hcl; [|done].
  case_decide as Hne; [|done]. simplify_eq.
  apply head_filter_lookup in Hh as (_ & i & Hi).
  destruct (snoc_lookup_earlier l (k, c) _ _ Hi) as (Hlt & H1 & H2).
  by eapply (SSLPolicyConflict _ i (length l)).
Qed.

Lemma cidrClash_inv (l : list entry) (x : entry) (e : error) :
  cidrClash l x = Some e →
  ∃ y, head (filter (fun e => definedEntry e) l) = Some y
       ∧ definedEntry x = true
       ∧ e = errConflictingCIDRs zeroNamespacedName
               (inboundCIDRv4s y.2) (inboundCIDRv6s y.2)
               x.1 (inboundCIDRv4s x.2) (inboundCIDRv6s x.2).
Proof.
  unfold cidrClash. destruct (head (filter _ l)) as [y|]; simpl; [|done].
  destruct (definedEntry x); [|done]. intros [= <-]. by exists y.
Qed.

Lemma cidrsDefinedAtMostOnce_head (l : list entry) (y : entry) :
  cidrsDefinedAtMostOnce l → y ∈ l → definedEntry y = true →
  filter (fun e => definedEntry e) l = [y].
Proof.
  unfold cidrsDefinedAtMostOnce. intros Hlen Hy Hd.
  assert (Hin : y ∈ filter (fun e => definedEntry e) l).
  { apply list_elem_of_filter. split; [by apply Is_true_true | done]. }
  destruct (filter _ l) as [|a [|b f]]; simpl in Hlen.
  - by apply elem_of_nil in Hin.
  - by apply list_elem_of_singleton in Hin as ->.
  - lia.
Qed.

Lemma rangeLoop_Err_no_cidr (l : list entry) (e : error) :
  cidrsDefinedAtMostOnce l → rangeLoop l initVars = Err e →
  protocolConflict l e ∨ sslPolicyConflict l e.
Proof.
  intros Hone He.
  apply rangeLoop_Err_inv in He as (pre & x & post & -> & _ & Hcl).
  replace (pre ++ x :: post) with ((pre ++ [x]) ++ post) in *
    by by rewrite <- app_assoc.
  apply clash_cases in Hcl as [HP|[[_ HC]|(_ & _ & HS)]].
  - left. apply protocolClash_conflict in HP. destruct HP.
    econstructor; eauto using lookup_app_l_Some.
  - exfalso. apply cidrClash_inv in HC as (y & Hy & Hx & _).
    unfold cidrsDefinedAtMostOnce in Hone.
    rewrite !filter_app, !length_app in Hone.
    rewrite filter_cons_True in Hone by by apply Is_true_true.
    destruct (filter _ pre); [done|]. simpl in Hone. lia.
  - right. apply sslPolicyClash_conflict in HS. destruct HS.
    econstructor; eauto using lookup_app_l_Some.
Qed.

(** ** The CIDR gate *)

Lemma cidr_gate (d : string) (pre post : list entry) (x y : entry) :
  consistent pre → y ∈ pre →
  definedEntry y = true → definedEntry x = true →
  ∃ e, mergeListenPortConfigs d (pre ++ x :: post) = Err e
       ∧ loopBody (varsOf pre) x = Err e
       ∧ (protocolClash pre x = Some e
          ∨ (protocolClash pre x = None
             ∧ e = errConflictingCIDRs zeroNamespacedName
                     (inboundCIDRv4s y.2) (inboundCIDRv6s y.2)
                     x.1 (inboundCIDRv4s x.2) (inboundCIDRv6s x.2))).
Proof.
  intros Hc Hy Hdy Hdx.
  pose proof (cidrsDefinedAtMostOnce_head pre y (proj1 (proj2 Hc)) Hy Hdy) as Hf.
  assert (Hcl : ∃ e, clash pre x = Some e
                     ∧ (protocolClash pre x = Some e
                        ∨ (protocolClash pre x = None
                           ∧ e = errConflictingCIDRs zeroNamespacedName
                                   (inboundCIDRv4s y.2) (inboundCIDRv6s y.2)
                                   x.1 (inboundCIDRv4s x.2) (inboundCIDRv6s x.2)))).
  { unfold clash. destruct (protocolClash pre x) as [e|]; [by eauto|].
    unfold cidrClash. rewrite Hf, Hdx. simpl. eauto. }
  destruct Hcl as (e & Hcl & He). exists e. split; [|split; [|done]].
  - by rewrite merge_unfold, (rangeLoop_first_clash pre post x e Hc Hcl).
  - by rewrite loopBody_varsOf, Hcl.
Qed.

(** C1. Once the non-empty inbound-CIDR definition of a member [y] has been
    adopted, the merge fails at the next member [x] that also defines one,
    whether or not the two definitions are equal: the error is the CIDR
    conflict between [y] and [x], or the protocol conflict that the same
    iteration checks first.  Any two defining members in an input make the
    merge fail with a conflict.  When exactly one member [x] defines CIDRs,
    no CIDR conflict is raised, a successful merge carries the CIDRs of [x],
    and the merge succeeds whenever protocols and SSL policies agree. *)
Theorem C1_cidr_gate (d : string) :
  (∀ pre post x y,
     consistent pre → y ∈ pre →
     definedEntry y = true → definedEntry x = true →
     ∃ e, mergeListenPortConfigs d (pre ++ x :: post) = Err e
          ∧ loopBody (varsOf pre) x = Err e
          ∧ (protocolClash pre x = Some e
             ∨ e = errConflictingCIDRs zeroNamespacedName
                     (inboundCIDRv4s y.2) (inboundCIDRv6s y.2)
                     x.1 (inboundCIDRv4s x.2) (inboundCIDRv6s x.2)))
  ∧ (∀ l i j e1 e2,
       (i < j)%nat → l !! i = Some e1 → l !! j = Some e2 →
       definedEntry e1 = true → definedEntry e2 = true →
       ∃ e, mergeListenPortConfigs d l = Err e ∧ conflictError l e)
  ∧ (∀ l x,
       filter (fun e => definedEntry e) l = [x] →
       (∀ r, mergeListenPortConfigs d l = Ok r →
             inboundCIDRv4s r = inboundCIDRv4s x.2
             ∧ inboundCIDRv6s r = inboundCIDRv6s x.2)
       ∧ (∀ e, mergeListenPortConfigs d l = Err e →
               protocolConflict l e ∨ sslPolicyConflict l e)
       ∧ (protocolsAgree l → sslPoliciesAgree l →
          isOk (mergeListenPortConfigs d l) = true)).
Proof.
  split; [|split].
  - intros pre post x y Hc Hy Hdy Hdx.
    destruct (cidr_gate d pre post x y Hc Hy Hdy Hdx) as (e & Hm & Hb & He).
    exists e. split; [done|]. split; [done|].
    destruct He as [He|[_ He]]; [by left | by right].
  - intros l i j e1 e2 Hij H1 H2 Hd1 Hd2.
    assert (Hnc : ¬ consistent l).
    { intros (_ & Hone & _). unfold cidrsDefinedAtMostOnce in Hone.
      pose proof (two_defined_length l i j e1 e2 Hij H1 H2 Hd1 Hd2). lia. }
    destruct (mergeListenPortConfigs d l) as [r|e] eqn:Hm.
    + by apply merge_Ok_inv in Hm as (? & _).
    + exists e. split; [done|].
      apply merge_Err_inv in Hm as [[-> _]|[_ Hm]]; [done|].
      by apply rangeLoop_Err_conflict.
  - intros l x Hf.
    assert (Hone : cidrsDefinedAtMostOnce l).
    { unfold cidrsDefinedAtMostOnce. by rewrite Hf. }
    assert (Hne : l ≠ []) by (intros ->; done).
    split; [|split].
    + intros r Hm. apply merge_Ok_inv in Hm as (_ & _ & Hfin).
      unfold finish in Hfin.
      destruct (mergedProtocol (varsOf l)); [|done].
      pose proof (definedCIDRs_varsOf l) as Hdef. rewrite Hf in Hdef.
      simpl in Hfin, Hdef. rewrite Hf in Hfin. simpl in Hfin.
      unfold definedCIDRs in Hdef. rewrite Hf in Hdef. simpl in Hdef.
      destruct (length (inboundCIDRv4s x.2) =? 0)%nat,
               (length (inboundCIDRv6s x.2) =? 0)%nat;
        simpl in *; by simplify_eq.
    + intros e Hm. apply merge_Err_inv in Hm as [[-> _]|[_ Hm]]; [done|].
      by apply rangeLoop_Err_no_cidr.
    + intros Hp Hs. by apply merge_isOk.
Qed.

Lemma C1_cidr_gate_witness :
  (∃ e, mergeListenPortConfigs defaultSSLPolicy_Build
          ([(sample.ingA, sample.httpRestricted)]
           ++ (sample.ingB, sample.httpRestricted) :: []) = Err e
        ∧ loopBody (varsOf [(sample.ingA, sample.httpRestricted)])
            (sample.ingB, sample.httpRestricted) = Err e
        ∧ (protocolClash [(sample.ingA, sample.httpRestricted)]
             (sample.ingB, sample.httpRestricted) = Some e
           ∨ e = errConflictingCIDRs zeroNamespacedName
                   ["10.0.0.0/8"] [] sample.ingB ["10.0.0.0/8"] []))
  ∧ (∃ e, mergeListenPortConfigs defaultSSLPolicy_Build
          [(sample.ingA, sample.httpRestricted);
           (sample.ingB, sample.httpRestricted)] = Err e
        ∧ conflictError [(sample.ingA, sample.httpRestricted);
                         (sample.ingB, sample.httpRestricted)] e)
  ∧ (∃ r, mergeListenPortConfigs defaultSSLPolicy_Build
            [(sample.ingA, sample.httpPlain);
             (sample.ingB, sample.httpRestricted)] = Ok r
          ∧ inboundCIDRv4s r = ["10.0.0.0/8"] ∧ inboundCIDRv6s r = []).
Proof.
  destruct (C1_cidr_gate defaultSSLPolicy_Build) as (Hgate & Htwo & Hone).
  split; [|split].
  - apply (Hgate [(sample.ingA, sample.httpRestricted)] []
             (sample.ingB, sample.httpRestricted)
             (sample.ingA, sample.httpRestricted));
      [by apply rangeLoop_isOk | by apply list_elem_of_singleton
      | reflexivity | reflexivity].
  - apply (Htwo _ 0%nat 1%nat (sample.ingA, sample.httpRestricted)
             (sample.ingB, sample.httpRestricted));
      [lia | reflexivity | reflexivity | reflexivity | reflexivity].
  - eexists. split; [reflexivity|].
    apply (Hone [(sample.ingA, sample.httpPlain);
                 (sample.ingB, sample.httpRestricted)]
             (sample.ingB, sample.httpRestricted)); reflexivity.
Defined.

(** ** The protocol rule *)

Lemma cidrClash_conflict (l : list entry) (x : entry) (e : error) :
  cidrClash l x = Some e → cidrConflict (l ++ [x]) e.
Proof.
  intros HC. apply cidrClash_inv in HC as ([k0 c0] & Hh & Hd & ->).
  destruct x as [k c].
  apply head_filter_lookup in Hh as (Hd0 & i & Hi).
  destruct (snoc_lookup_earlier l (k, c) _ _ Hi) as (Hlt & H1 & H2).
  eapply (CIDRConflict _ i (length l)); eauto. by apply Is_true_true.
Qed.

Lemma protocolsAgree_no_protocolClash (pre post : list entry) (x : entry) :
  protocolsAgree (pre ++ x :: post) → protocolClash pre x = None.
Proof.
  intros Hp. unfold protocolClash.
  destruct (head pre) as [h|] eqn:Hh; simpl; [|done].
  case_decide as Hne; [|done]. destruct Hne. apply Hp.
  - apply elem_of_app. left. by apply head_Some_elem_of.
  - apply elem_of_app. right. by left.
Qed.

Lemma rangeLoop_Err_no_protocol (l : list entry) (e : error) :
  protocolsAgree l → rangeLoop l initVars = Err e →
  cidrConflict l e ∨ sslPolicyConflict l e.
Proof.
  intros Hp He.
  apply rangeLoop_Err_inv in He as (pre & x & post & -> & _ & Hcl).
  pose proof (protocolsAgree_no_protocolClash _ _ _ Hp) as HP.
  replace (pre ++ x :: post) with ((pre ++ [x]) ++ post)
    by by rewrite <- app_assoc.
  apply clash_cases in Hcl as [HP'|[[_ HC]|(_ & _ & HS)]]; [congruence| |].
  - left. apply cidrClash_conflict in HC. destruct HC.
    econstructor; eauto using lookup_app_l_Some.
  - right. apply sslPolicyClash_conflict in HS. destruct HS.
    econstructor; eauto using lookup_app_l_Some.
Qed.

(** C2 as stated fails: with members [a], [b], [c] iterated in this order,
    [a] and [b] both restricting CIDRs and [c] on another protocol than [a],
    the merge returns the CIDR conflict met at [b], not a protocol
    conflict. *)
Lemma C2_counterexample :
  ¬ (∀ (d : string) (k0 : NamespacedName) (c0 : listenPortConfig)
       (rest : list entry) (k : NamespacedName) (c : listenPortConfig),
       (k, c) ∈ rest → protocol c ≠ protocol c0 →
       ∃ k' c', (k', c') ∈ rest
                ∧ mergeListenPortConfigs d ((k0, c0) :: rest)
                  = Err (errConflictingProtocol k0 (protocol c0)
                                                k' (protocol c'))).
Proof.
  intros H.
  destruct (H defaultSSLPolicy_Build sample.ingA sample.httpRestricted
              [(sample.ingB, sample.httpRestricted); (sample.ingC, sample.httpsX)]
              sample.ingC sample.httpsX) as (k' & c' & _ & Hm).
  - apply elem_of_cons. right. by apply list_elem_of_singleton.
  - done.
  - vm_compute in Hm. discriminate Hm.
Qed.

(** C2, amended. The protocol of the first member iterated is the
    candidate and that member its provider.  When a later member's protocol
    differs from it and no conflict was met at the members iterated before
    that one, the merge returns the protocol conflict naming the candidate's
    provider, the disagreeing member and both protocols; whenever some later
    member's protocol differs the merge fails with a conflict; and when all
    members agree on the protocol, an error of the merge is a CIDR or an
    SSL-policy conflict, never a protocol conflict. *)
Theorem C2_protocol_conflict (d : string) (k0 : NamespacedName)
    (c0 : listenPortConfig) :
  (∀ rest v,
     rangeLoop ((k0, c0) :: rest) initVars = Ok v →
     mergedProtocol v = Some (protocol c0) ∧ mergedProtocolProvider v = k0)
  ∧ (∀ pre k c post,
       consistent ((k0, c0) :: pre) → protocol c ≠ protocol c0 →
       mergeListenPortConfigs d ((k0, c0) :: pre ++ (k, c) :: post)
       = Err (errConflictingProtocol k0 (protocol c0) k (protocol c)))
  ∧ (∀ rest k c,
       (k, c) ∈ rest → protocol c ≠ protocol c0 →
       ∃ e, mergeListenPortConfigs d ((k0, c0) :: rest) = Err e
            ∧ conflictError ((k0, c0) :: rest) e)
  ∧ (∀ rest e,
       protocolsAgree ((k0, c0) :: rest) →
       mergeListenPortConfigs d ((k0, c0) :: rest) = Err e →
       (cidrConflict ((k0, c0) :: rest) e ∨ sslPolicyConflict ((k0, c0) :: rest) e)
       ∧ String.prefix "conflicting protocol, " (errors.Error e) = false).
Proof.
  split; [|split; [|split]].
  - intros rest v Hv. by apply rangeLoop_Ok_inv in Hv as [_ ->].
  - intros pre k c post Hc Hne.
    rewrite merge_unfold, app_comm_cons.
    rewrite (rangeLoop_first_clash _ post (k, c)
               (errConflictingProtocol k0 (protocol c0) k (protocol c)) Hc);
      [done|].
    unfold clash, protocolClash. simpl. by rewrite decide_True by done.
  - intros rest k c Hin Hne.
    assert (Hnc : ¬ consistent ((k0, c0) :: rest)).
    { intros (Hp & _). apply Hne. symmetry.
      apply (Hp (k0, c0) (k, c)); [by left | by right]. }
    destruct (mergeListenPortConfigs d ((k0, c0) :: rest)) as [r|e] eqn:Hm.
    + by apply merge_Ok_inv in Hm as (? & _).
    + exists e. split; [done|].
      apply merge_Err_inv in Hm as [[? _]|[_ Hm]]; [done|].
      by apply rangeLoop_Err_conflict.
  - intros rest e Hp Hm.
    apply merge_Err_inv in Hm as [[? _]|[_ Hm]]; [done|].
    pose proof (rangeLoop_Err_no_protocol _ _ Hp Hm) as Hcs.
    split; [done|]. destruct Hcs as [H|H]; destruct H; solve_prefix.
Qed.

Lemma C2_protocol_conflict_witness :
  mergeListenPortConfigs defaultSSLPolicy_Build
    ((sample.ingA, sample.httpPlain)
     :: [(sample.ingB, sample.httpRestricted)]
        ++ (sample.ingC, sample.httpsX) :: [])
  = Err (errors.New "conflicting protocol, ns/a: HTTP | ns/c: HTTPS").
Proof.
  destruct (C2_protocol_conflict defaultSSLPolicy_Build
              sample.ingA sample.httpPlain) as (_ & Hconf & _).
  apply (Hconf [(sample.ingB, sample.httpRestricted)] sample.ingC sample.httpsX []).
  - by apply rangeLoop_isOk.
  - done.
Defined.

(** ** The order of iteration *)

Lemma filter_Permutation_le1 {A : Type} (P : A → Prop) `{∀ a, Decision (P a)}
    (l1 l2 : list A) :
  l1 ≡ₚ l2 → (length (filter P l1) ≤ 1)%nat → filter P l1 = filter P l2.
Proof.
  intros Hperm Hlen.
  assert (Hf : filter P l1 ≡ₚ filter P l2) by by rewrite Hperm.
  destruct (filter P l1) as [|a [|b f]]; simpl in Hlen.
  - by apply Permutation_nil_l in Hf.
  - by apply Permutation_singleton_l in Hf.
  - lia.
Qed.

Lemma consistent_Permutation (l1 l2 : list entry) :
  l1 ≡ₚ l2 → consistent l1 → consistent l2.
Proof.
  intros Hperm (Hp & Hc & Hs). split; [|split].
  - intros e1 e2 H1 H2. apply Hp; by rewrite Hperm.
  - unfold cidrsDefinedAtMostOnce in *. by rewrite <- Hperm.
  - intros e1 e2 p1 p2 H1 H2. apply Hs; by rewrite Hperm.
Qed.

Lemma certsOf_Permutation (l1 l2 : list entry) :
  l1 ≡ₚ l2 → certsOf l1 = certsOf l2.
Proof.
  intros Hperm. apply set_eq. intros s. rewrite !elem_of_certsOf.
  by setoid_rewrite Hperm.
Qed.

Lemma mergedProtocol_Permutation (l1 l2 : list entry) :
  l1 ≡ₚ l2 → protocolsAgree l1 →
  mergedProtocol (varsOf l1) = mergedProtocol (varsOf l2).
Proof.
  intros Hperm Hp. simpl.
  destruct l1 as [|x1 l1], l2 as [|x2 l2]; simpl; [done| | |].
  - by apply Permutation_nil_l in Hperm.
  - by apply Permutation_nil_r in Hperm.
  - f_equal. apply Hp; [by left|]. rewrite Hperm. by left.
Qed.

Lemma mergedSSLPolicy_Permutation (l1 l2 : list entry) :
  l1 ≡ₚ l2 → sslPoliciesAgree l1 →
  mergedSSLPolicy (varsOf l1) = mergedSSLPolicy (varsOf l2).
Proof.
  intros Hperm Hs. simpl.
  assert (Hf : filter (fun e => hasSSLPolicy e) l1
               ≡ₚ filter (fun e => hasSSLPolicy e) l2) by by rewrite Hperm.
  destruct (filter _ l1) as [|x1 f1] eqn:H1, (filter _ l2) as [|x2 f2] eqn:H2;
    simpl; [done| | |].
  - by apply Permutation_nil_l in Hf.
  - by apply Permutation_nil_r in Hf.
  - assert (Hx1 : x1 ∈ filter (fun e => hasSSLPolicy e) l1) by (rewrite H1; by left).
    assert (Hx2 : x2 ∈ filter (fun e => hasSSLPolicy e) l2) by (rewrite H2; by left).
    apply list_elem_of_filter in Hx1 as [Hq1 Hx1].
    apply list_elem_of_filter in Hx2 as [Hq2 Hx2].
    unfold hasSSLPolicy in Hq1, Hq2.
    destruct (sslPolicy x1.2) as [p1|] eqn:Hp1; [|done].
    destruct (sslPolicy x2.2) as [p2|] eqn:Hp2; [|done].
    f_equal. eapply (Hs x1 x2); eauto. by rewrite Hperm.
Qed.

Lemma finish_varsOf_Permutation (d : string) (l1 l2 : list entry) :
  l1 ≡ₚ l2 → consistent l1 → finish d (varsOf l1) = finish d (varsOf l2).
Proof.
  intros Hperm (Hp & Hc & Hs). unfold finish.
  rewrite <- (mergedProtocol_Permutation _ _ Hperm Hp).
  rewrite <- (mergedSSLPolicy_Permutation _ _ Hperm Hs).
  assert (H4 : mergedInboundCIDRv4s (varsOf l1) = mergedInboundCIDRv4s (varsOf l2)).
  { simpl. by rewrite (filter_Permutation_le1 _ _ _ Hperm Hc). }
  assert (H6 : mergedInboundCIDRv6s (varsOf l1) = mergedInboundCIDRv6s (varsOf l2)).
  { simpl. by rewrite (filter_Permutation_le1 _ _ _ Hperm Hc). }
  assert (HT : mergedTLSCerts (varsOf l1) = mergedTLSCerts (varsOf l2)).
  { simpl. by apply certsOf_Permutation. }
  by rewrite <- H4, <- H6, <- HT.
Qed.

Lemma merge_Permutation_Ok (d : string) (l1 l2 : list entry) (r : listenPortConfig) :
  l1 ≡ₚ l2 → mergeListenPortConfigs d l1 = Ok r →
  mergeListenPortConfigs d l2 = Ok r.
Proof.
  intros Hperm Hm. apply merge_Ok_inv in Hm as (Hc & Hne & Hfin).
  assert (Hne2 : l2 ≠ []).
  { intros ->. by apply Permutation_nil_r in Hperm. }
  destruct (merge_consistent d l2 (consistent_Permutation _ _ Hperm Hc) Hne2)
    as [-> _].
  by rewrite <- (finish_varsOf_Permutation d l1 l2 Hperm Hc).
Qed.

Lemma merge_Err_cases (d : string) (l : list entry) (e : error) :
  mergeListenPortConfigs d l = Err e →
  (l = [] ∧ e = errShouldNeverHappen) ∨ (l ≠ [] ∧ conflictError l e).
Proof.
  intros Hm. apply merge_Err_inv in Hm as [?|[? Hm]]; [by left|].
  right. split; [done|]. by apply rangeLoop_Err_conflict.
Qed.

(** C4 as stated fails: the map with [a] and [b] on HTTP and [c] on HTTPS
    gives, iterated as [a; b; c], the conflict of [a] with [c] and, iterated
    as [b; a; c], the conflict of [b] with [c]. *)
Lemma C4_counterexample :
  ¬ (∀ (d : string) (m : gmap NamespacedName listenPortConfig)
       (l1 l2 : list entry),
       rangeOrder m l1 → rangeOrder m l2 →
       mergeListenPortConfigs d l1 = mergeListenPortConfigs d l2).
Proof.
  intros H.
  pose (l1 := [(sample.ingA, sample.httpPlain); (sample.ingB, sample.httpPlain);
               (sample.ingC, sample.httpsX)]).
  pose (l2 := [(sample.ingB, sample.httpPlain); (sample.ingA, sample.httpPlain);
               (sample.ingC, sample.httpsX)]).
  assert (H1 : rangeOrder (list_to_map l1 : gmap NamespacedName listenPortConfig) l1).
  { unfold rangeOrder. symmetry. apply map_to_list_to_map.
    by apply (bool_decide_unpack _). }
  assert (H2 : rangeOrder (list_to_map l1 : gmap NamespacedName listenPortConfig) l2).
  { unfold rangeOrder in *. rewrite <- H1. apply perm_swap. }
  specialize (H defaultSSLPolicy_Build _ l1 l2 H1 H2).
  vm_compute in H. discriminate H.
Qed.

(** C4, amended. Two iteration orders of the same map either both succeed,
    with the same merged configuration, or both fail.  When they fail on an
    empty map both return the same internal error; otherwise each returns a
    conflict between two entries of the map, and which entries and which
    setting the error names depends on the order. *)
Theorem C4_order_independent_outcome (d : string)
    (m : gmap NamespacedName listenPortConfig) (l1 l2 : list entry) :
  rangeOrder m l1 → rangeOrder m l2 →
  (∀ r, mergeListenPortConfigs d l1 = Ok r → mergeListenPortConfigs d l2 = Ok r)
  ∧ (∀ e1, mergeListenPortConfigs d l1 = Err e1 →
       ∃ e2, mergeListenPortConfigs d l2 = Err e2
             ∧ ((m = ∅ ∧ e1 = errShouldNeverHappen ∧ e2 = errShouldNeverHappen)
                ∨ (conflictError l1 e1 ∧ conflictError l2 e2))).
Proof.
  unfold rangeOrder. intros H1 H2.
  assert (Hperm : l1 ≡ₚ l2) by by rewrite H1, H2.
  split.
  - intros r. by apply merge_Permutation_Ok.
  - intros e1 Hm1.
    destruct (mergeListenPortConfigs d l2) as [r2|e2] eqn:Hm2.
    + apply (merge_Permutation_Ok d l2 l1) in Hm2; [congruence | done].
    + exists e2. split; [done|].
      apply merge_Err_cases in Hm1 as [[-> ->]|[Hne1 Hc1]].
      * left. apply Permutation_nil_l in Hperm. subst l2.
        apply merge_Err_cases in Hm2 as [[_ ->]|[? _]]; [|done].
        split; [|done]. symmetry in H1. apply Permutation_nil_r in H1.
        by apply map_to_list_empty_iff in H1.
      * right. split; [done|].
        apply merge_Err_cases in Hm2 as [[-> _]|[_ ?]]; [|done].
        by apply Permutation_nil_r in Hperm.
Qed.

Lemma C4_order_independent_outcome_witness :
  mergeListenPortConfigs defaultSSLPolicy_Build
    [(sample.ingB, sample.httpsY); (sample.ingA, sample.httpsX)]
  = Ok (mkListenPortConfig ProtocolHTTPS ["0.0.0.0/0"] ["::/0"]
          (Some "ELBSecurityPolicy-2016-08") ["x"; "y"]).
Proof.
  apply (proj1 (C4_order_independent_outcome defaultSSLPolicy_Build
           (list_to_map [(sample.ingA, sample.httpsX); (sample.ingB, sample.httpsY)])
           [(sample.ingA, sample.httpsX); (sample.ingB, sample.httpsY)]
           [(sample.ingB, sample.httpsY); (sample.ingA, sample.httpsX)]
           ltac:(unfold rangeOrder; symmetry; apply map_to_list_to_map;
                 by apply (bool_decide_unpack _))
           ltac:(unfold rangeOrder; etrans; [apply perm_swap|]; symmetry;
                 apply map_to_list_to_map; by apply (bool_decide_unpack _)))).
  reflexivity.
Defined.

(** ** The internal error *)

(** C5 as stated fails: the error for an input without members and the
    error for a protocol conflict are values of one and the same kind. *)
Lemma C5_counterexample :
  ¬ (∀ d : string,
       ∃ e, mergeListenPortConfigs d [] = Err e
            ∧ ∀ l' e', mergeListenPortConfigs d l' = Err e' →
                       conflictError l' e' →
                       errors.kindOf e ≠ errors.kindOf e').
Proof.
  intros H. destruct (H defaultSSLPolicy_Build) as (e & He & Hk).
  vm_compute in He. simplify_eq.
  apply (Hk [(sample.ingA, sample.httpPlain); (sample.ingC, sample.httpsX)]
            (errConflictingProtocol sample.ingA ProtocolHTTP
                                    sample.ingC ProtocolHTTPS)).
  - reflexivity.
  - left. apply (ProtocolConflict _ 0%nat 1%nat sample.ingA sample.httpPlain
                   sample.ingC sample.httpsX); [lia | done | done | done].
  - reflexivity.
Qed.

(** C5, amended. For an input without members the merge returns the error
    with the message "should never happen".  It is an error value of the
    same kind as the conflict errors, and a caller can tell it from them by
    the message only: every conflict message starts with "conflicting ". *)
Theorem C5_internal_error (d : string) :
  mergeListenPortConfigs d [] = Err errShouldNeverHappen
  ∧ errors.Error errShouldNeverHappen = "should never happen"
  ∧ (∀ l e, conflictError l e →
       errors.kindOf e = errors.kindOf errShouldNeverHappen
       ∧ String.prefix "conflicting " (errors.Error e) = true
       ∧ errors.Error e ≠ errors.Error errShouldNeverHappen)
  ∧ (∀ l e, mergeListenPortConfigs d l = Err e →
       e = errShouldNeverHappen ↔ l = []).
Proof.
  split; [done|]. split; [done|]. split.
  - intros l e Hc. destruct (conflictError_prefix l e Hc) as [Hk Hp].
    split; [done|]. split; [done|]. intros Heq. rewrite Heq in Hp. done.
  - intros l e Hm. apply merge_Err_cases in Hm as [[-> ->]|[Hne Hc]]; [done|].
    split; [|done]. intros ->.
    by destruct (conflictError_prefix l _ Hc) as [_ Hp].
Qed.

Lemma C5_internal_error_witness :
  errors.kindOf (errConflictingProtocol sample.ingA ProtocolHTTP
                                        sample.ingC ProtocolHTTPS)
  = errors.kindOf errShouldNeverHappen
  ∧ errors.Error (errConflictingProtocol sample.ingA ProtocolHTTP
                                         sample.ingC ProtocolHTTPS)
    ≠ errors.Error errShouldNeverHappen.
Proof.
  destruct (C5_internal_error defaultSSLPolicy_Build) as (_ & _ & Hc & _).
  destruct (Hc [(sample.ingA, sample.httpPlain); (sample.ingC, sample.httpsX)]
               (errConflictingProtocol sample.ingA ProtocolHTTP
                                       sample.ingC ProtocolHTTPS))
    as (Hk & _ & Hne).
  - left. apply (ProtocolConflict _ 0%nat 1%nat sample.ingA sample.httpPlain
                   sample.ingC sample.httpsX); [lia | done | done | done].
  - by split.
Defined.

(** ** The defaults applied after the loop *)

(** C7. In a successful merge for which the loop adopted no CIDR
    definition, as happens when no member defines one, the merged inbound
    CIDRs are exactly ["0.0.0.0/0"] and ["::/0"]; in a successful merge to
    HTTPS for which the loop adopted no SSL policy, as happens when no member
    sets one, the merged SSL policy is the default of the task, which
    [Build] sets to "ELBSecurityPolicy-2016-08". *)
Theorem C7_post_merge_defaults (d : string) (l : list entry) (v : mergeVars)
    (r : listenPortConfig) :
  rangeLoop l initVars = Ok v →
  mergeListenPortConfigs d l = Ok r →
  (definedCIDRs (mergedInboundCIDRv4s v) (mergedInboundCIDRv6s v) = false →
   inboundCIDRv4s r = ["0.0.0.0/0"] ∧ inboundCIDRv6s r = ["::/0"])
  ∧ ((∀ e, e ∈ l → definedEntry e = false) →
     definedCIDRs (mergedInboundCIDRv4s v) (mergedInboundCIDRv6s v) = false)
  ∧ (protocol r = ProtocolHTTPS → mergedSSLPolicy v = None →
     sslPolicy r = Some d)
  ∧ ((∀ e, e ∈ l → sslPolicy e.2 = None) → mergedSSLPolicy v = None)
  ∧ defaultSSLPolicy_Build = "ELBSecurityPolicy-2016-08".
Proof.
  intros Hv Hm. rewrite merge_unfold, Hv in Hm.
  apply rangeLoop_Ok_inv in Hv as [Hc ->].
  unfold finish in Hm.
  destruct (mergedProtocol (varsOf l)) as [p|] eqn:Hp; [|done].
  split; [|split; [|split; [|split]]].
  - intros Hdef. unfold definedCIDRs in Hdef.
    apply orb_false_iff in Hdef as [H4 H6].
    apply negb_false_iff in H4, H6.
    apply Nat.eqb_eq, nil_length_inv in H4, H6.
    rewrite H4, H6 in Hm. simpl in Hm. by simplify_eq.
  - intros Hnone. rewrite definedCIDRs_varsOf.
    destruct (filter _ l) as [|x f] eqn:Hf; [done|].
    assert (Hx : x ∈ filter (fun e => definedEntry e) l) by (rewrite Hf; by left).
    apply list_elem_of_filter in Hx as [Hd Hx].
    rewrite (Hnone x Hx) in Hd. done.
  - intros Hs Hnone. rewrite Hnone in Hm. injection Hm as <-.
    simpl in Hs. subst p. simpl. done.
  - intros Hnone. simpl.
    destruct (filter _ l) as [|x f] eqn:Hf; [done|]. simpl.
    apply Hnone. assert (Hx : x ∈ filter (fun e => hasSSLPolicy e) l)
      by (rewrite Hf; by left).
    by apply list_elem_of_filter in Hx as [_ Hx].
  - done.
Qed.

Lemma C7_post_merge_defaults_witness :
  ∃ r, mergeListenPortConfigs defaultSSLPolicy_Build
         [(sample.ingA, sample.httpsX); (sample.ingB, sample.httpsY)] = Ok r
       ∧ inboundCIDRv4s r = ["0.0.0.0/0"] ∧ inboundCIDRv6s r = ["::/0"]
       ∧ sslPolicy r = Some "ELBSecurityPolicy-2016-08".
Proof.
  eexists. split; [reflexivity|].
  destruct (C7_post_merge_defaults defaultSSLPolicy_Build
              [(sample.ingA, sample.httpsX); (sample.ingB, sample.httpsY)]
              _ _ eq_refl eq_refl) as (Hcidr & _ & Hssl & _).
  destruct (Hcidr eq_refl) as [H4 H6].
  split; [exact H4|]. split; [exact H6|]. by apply Hssl.
Defined.

(** ** The certificates *)

#[local] Instance sets_le_total : Total sets.le.
Proof.
  intros a b. unfold sets.le.
  destruct (String.leb_total a b) as [H|H]; [left|right]; by apply Is_true_true.
Qed.

Lemma sets_List_spec (s : sets.String) :
  NoDup (sets.List s) ∧ Sorted sets.le (sets.List s)
  ∧ ∀ x, x ∈ sets.List s ↔ x ∈ s.
Proof.
  unfold sets.List. split; [|split].
  - rewrite merge_sort_Permutation. apply NoDup_elements.
  - apply (Sorted_merge_sort sets.le).
  - intros x. rewrite merge_sort_Permutation. apply elem_of_elements.
Qed.

Lemma loopBody_sameButCerts (v v' : mergeVars) (x x' : entry) :
  eqButCerts v v' → sameButCerts x x' →
  agreeButCerts (loopBody v x) (loopBody v' x').
Proof.
  destruct v as [mp mpp m4 m6 mcp ms msp mt],
           v' as [mp' mpp' m4' m6' mcp' ms' msp' mt'],
           x as [k [p v4 v6 pol certs]], x' as [k' [p' v4' v6' pol' certs']].
  unfold eqButCerts, sameButCerts. simpl.
  intros (-> & -> & -> & -> & -> & -> & ->) (-> & -> & -> & -> & ->).
  unfold agreeButCerts, loopBody, mergeProtocol, mergeInboundCIDRs,
    mergeSSLPolicy, eqButCerts. simpl.
  destruct mp' as [q|]; simpl; [destruct (decide (q ≠ p')); simpl; [done|]|];
    (destruct (definedCIDRs v4' v6'); simpl;
       [destruct (definedCIDRs m4' m6'); simpl; [done|]|]);
    (destruct pol' as [pl|]; simpl;
       [destruct ms' as [mpl|]; simpl;
          [destruct (decide (mpl ≠ pl)); simpl; [done|]|]|]);
    done.
Qed.

Lemma rangeLoop_sameButCerts (l l' : list entry) (v v' : mergeVars) :
  Forall2 sameButCerts l l' → eqButCerts v v' →
  agreeButCerts (rangeLoop l v) (rangeLoop l' v').
Proof.
  intros Hl. revert v v'.
  induction Hl as [|x x' l l' Hx Hl IH]; intros v v' Hv; simpl; [done|].
  pose proof (loopBody_sameButCerts v v' x x' Hv Hx) as Hb.
  destruct (loopBody v x) as [w|e], (loopBody v' x') as [w'|e'];
    simpl in *; try done. by apply IH.
Qed.

Lemma merge_sameButCerts (d : string) (l l' : list entry) :
  Forall2 sameButCerts l l' →
  match mergeListenPortConfigs d l, mergeListenPortConfigs d l' with
  | Ok _, Ok _ => True
  | Err e, Err e' => e = e'
  | _, _ => False
  end.
Proof.
  intros Hl. rewrite !merge_unfold.
  assert (H0 : eqButCerts initVars initVars) by by repeat split.
  pose proof (rangeLoop_sameButCerts l l' _ _ Hl H0) as Hr.
  destruct (rangeLoop l initVars) as [v|e], (rangeLoop l' initVars) as [v'|e'];
    simpl in Hr; try done.
  destruct Hr as (Hp & _). unfold finish. rewrite Hp.
  by destruct (mergedProtocol v').
Qed.

(** C8. The certificates of a successful merge are exactly the
    certificates the members declare, each listed once, in sorted order
    whatever the order of iteration; and two inputs that differ only in the
    certificates of their members fail together, with the same error, or
    succeed together, so the certificates never cause a conflict. *)
Theorem C8_tls_certs_union (d : string) :
  (∀ l r,
     mergeListenPortConfigs d l = Ok r →
     NoDup (tlsCerts r)
     ∧ (∀ s, s ∈ tlsCerts r ↔ ∃ e, e ∈ l ∧ s ∈ tlsCerts e.2)
     ∧ Sorted sets.le (tlsCerts r)
     ∧ (∀ l', l' ≡ₚ l →
          ∃ r', mergeListenPortConfigs d l' = Ok r'
                ∧ tlsCerts r' = tlsCerts r))
  ∧ (∀ l l',
       Forall2 sameButCerts l l' →
       (∀ e, mergeListenPortConfigs d l = Err e →
             mergeListenPortConfigs d l' = Err e)
       ∧ isOk (mergeListenPortConfigs d l) = isOk (mergeListenPortConfigs d l')).
Proof.
  split.
  - intros l r Hm. pose proof Hm as Hm0.
    apply merge_Ok_inv in Hm as (Hc & Hne & Hfin).
    unfold finish in Hfin.
    destruct (mergedProtocol (varsOf l)); [|done]. injection Hfin as <-. simpl.
    destruct (sets_List_spec (certsOf l)) as (Hnd & Hsorted & Hel).
    split; [done|]. split; [|split; [done|]].
    + intros s. by rewrite Hel, elem_of_certsOf.
    + intros l' Hperm. eexists. split.
      * symmetry in Hperm. apply (merge_Permutation_Ok d l l' _ Hperm Hm0).
      * done.
  - intros l l' Hl. pose proof (merge_sameButCerts d l l' Hl) as Hs.
    destruct (mergeListenPortConfigs d l), (mergeListenPortConfigs d l');
      try done.
    split; [|done]. intros e1 He1. by simplify_eq.
Qed.

Lemma C8_tls_certs_union_witness :
  ∃ r, mergeListenPortConfigs defaultSSLPolicy_Build
         [(sample.ingB, sample.httpsY); (sample.ingA, sample.httpsX)] = Ok r
       ∧ NoDup (tlsCerts r)
       ∧ Sorted sets.le (tlsCerts r)
       ∧ tlsCerts r = ["x"; "y"].
Proof.
  eexists. split; [reflexivity|].
  destruct (C8_tls_certs_union defaultSSLPolicy_Build) as [Hok _].
  destruct (Hok [(sample.ingB, sample.httpsY); (sample.ingA, sample.httpsX)]
              _ eq_refl) as (Hnd & _ & Hsorted & _).
  split; [exact Hnd|]. split; [exact Hsorted|]. reflexivity.
Defined.

(** ** The branch for a missing protocol *)

(** C9. For an input with at least one member, the first iteration sets
    the merged protocol, the loop never ends with the merged protocol unset,
    and the merge never returns the "should never happen" error. *)
Theorem C9_nil_protocol_unreachable (d : string) (l : list entry) :
  l ≠ [] →
  (∀ x l', l = x :: l' →
     mergeProtocol initVars x.1 x.2
     = Ok (setProtocol initVars (protocol x.2) x.1))
  ∧ (∀ v, rangeLoop l initVars = Ok v → mergedProtocol v ≠ None)
  ∧ mergeListenPortConfigs d l ≠ Err errShouldNeverHappen.
Proof.
  intros Hne. split; [done|]. split.
  - intros v Hv. apply rangeLoop_Ok_inv in Hv as [_ ->].
    by destruct (mergedProtocol_varsOf_nonempty l Hne) as (x & _ & ->).
  - intros Hm. by apply merge_Err_cases in Hm as [[? _]|[_ Hc]];
      [|destruct (conflictError_prefix l _ Hc) as [_ Hp]].
Qed.

Lemma C9_nil_protocol_unreachable_witness :
  mergeListenPortConfigs defaultSSLPolicy_Build
    [(sample.ingA, sample.httpPlain); (sample.ingC, sample.httpsX)]
  ≠ Err errShouldNeverHappen.
Proof.
  apply (C9_nil_protocol_unreachable defaultSSLPolicy_Build
           [(sample.ingA, sample.httpPlain); (sample.ingC, sample.httpsX)]).
  discriminate.
Defined.

(** ** The text of the CIDR conflict *)

(** C10. When the CIDR block of the loop rejects a member, a definition
    had been adopted and the member has one of its own, and the message of
    the error starts with the label "conflicting sslPolicy", which is the
    label of the SSL-policy conflict too, followed by the provider variable
    and the adopted CIDRs, then the member and its CIDRs.  So does the error
    the merge returns when a member [x] with the candidate protocol defines
    CIDRs after the definition of a member [y] was adopted; the provider
    variable is never assigned and the message shows it empty. *)
Theorem C10_cidr_conflict_label :
  (∀ v ingKey cfg e,
     mergeInboundCIDRs v ingKey cfg = Err e →
     definedCIDRs (mergedInboundCIDRv4s v) (mergedInboundCIDRv6s v) = true
     ∧ definedCIDRs (inboundCIDRv4s cfg) (inboundCIDRv6s cfg) = true
     ∧ errors.Error e
       = "conflicting sslPolicy, "
         +:+ fmt.namespacedName (mergedInboundCIDRsProvider v) +:+ ": "
         +:+ fmt.strings (mergedInboundCIDRv4s v) +:+ ", "
         +:+ fmt.strings (mergedInboundCIDRv6s v)
         +:+ " | " +:+ fmt.namespacedName ingKey +:+ ": "
         +:+ fmt.strings (inboundCIDRv4s cfg) +:+ ", "
         +:+ fmt.strings (inboundCIDRv6s cfg)
     ∧ String.prefix "conflicting sslPolicy" (errors.Error e) = true)
  ∧ (∀ k1 p1 k2 p2,
       String.prefix "conflicting sslPolicy"
         (errors.Error (errConflictingSSLPolicy k1 p1 k2 p2)) = true)
  ∧ (∀ d pre post x y,
       consistent pre → y ∈ pre →
       definedEntry y = true → definedEntry x = true →
       protocolClash pre x = None →
       ∃ e, mergeListenPortConfigs d (pre ++ x :: post) = Err e
            ∧ errors.Error e
              = "conflicting sslPolicy, /: "
                +:+ fmt.strings (inboundCIDRv4s y.2) +:+ ", "
                +:+ fmt.strings (inboundCIDRv6s y.2)
                +:+ " | " +:+ fmt.namespacedName x.1 +:+ ": "
                +:+ fmt.strings (inboundCIDRv4s x.2) +:+ ", "
                +:+ fmt.strings (inboundCIDRv6s x.2)
            ∧ String.prefix "conflicting sslPolicy" (errors.Error e) = true).
Proof.
  split; [|split].
  - intros v ingKey cfg e. unfold mergeInboundCIDRs.
    destruct (definedCIDRs (inboundCIDRv4s cfg) (inboundCIDRv6s cfg)); [|done].
    destruct (definedCIDRs (mergedInboundCIDRv4s v) (mergedInboundCIDRv6s v));
      [|done].
    simpl. intros [= <-].
    split; [done|]. split; [done|]. split; [done|]. solve_prefix.
  - intros. solve_prefix.
  - intros d pre post x y Hc Hy Hdy Hdx HP.
    destruct (cidr_gate d pre post x y Hc Hy Hdy Hdx) as (e & Hm & _ & He).
    destruct He as [He|[_ ->]]; [congruence|].
    eexists. split; [done|]. split; [done | solve_prefix].
Qed.

Lemma C10_cidr_conflict_label_witness :
  errors.Error
    (errConflictingCIDRs zeroNamespacedName ["10.0.0.0/8"] []
                         sample.ingB ["10.0.0.0/8"] [])
  = "conflicting sslPolicy, /: [10.0.0.0/8], [] | ns/b: [10.0.0.0/8], []".
Proof.
  destruct C10_cidr_conflict_label as (Hstep & _ & _).
  destruct (Hstep (varsOf [(sample.ingA, sample.httpRestricted)])
              sample.ingB sample.httpRestricted _ eq_refl) as (_ & _ & Hmsg & _).
  exact Hmsg.
Defined.

(** ** Errors of the per-member computation *)

Lemma collectLoop_app {E : Collaborators} (pre post : list (Ingress E))
    (tabs : portTables E) (w : World E) :
  collectLoop (pre ++ post) tabs w
  = match collectLoop pre tabs w with
    | (Ok tabs', w') => collectLoop post tabs' w'
    | (Err e, w') => (Err e, w')
    end.
Proof.
  revert tabs w. induction pre as [|ing pre IH]; intros tabs w; simpl; [done|].
  unfold mbind.
  destruct (computeIngressListenPortConfigByPort E ing w) as [[m|e] w']; [|done].
  apply IH.
Qed.

Lemma collectLoop_error {E : Collaborators} (pre post : list (Ingress E))
    (ing : Ingress E) (tabs0 tabs : portTables E) (w w1 w2 : World E) (e : error) :
  collectLoop pre tabs0 w = (Ok tabs, w1) →
  computeIngressListenPortConfigByPort E ing w1 = (Err e, w2) →
  collectLoop (pre ++ ing :: post) tabs0 w = (Err e, w2).
Proof.
  intros Hpre Hing. rewrite collectLoop_app, Hpre. simpl. unfold mbind.
  by rewrite Hing.
Qed.

Lemma run_collect_error {E : Collaborators} (t : defaultModelBuildTask E)
    (pre post : list (Ingress E)) (ing : Ingress E) (tabs : portTables E)
    (w w1 w2 : World E) (e : error) :
  ingGroup_Members t = pre ++ ing :: post →
  collectLoop pre (mkPortTables ∅ ∅) w = (Ok tabs, w1) →
  computeIngressListenPortConfigByPort E ing w1 = (Err e, w2) →
  run t w = (Err e, w2).
Proof.
  intros Hmem Hpre Hing. unfold run. rewrite Hmem.
  rewrite length_app. simpl.
  replace (length pre + S (length post) =? 0)%nat with false
    by (symmetry; apply Nat.eqb_neq; lia).
  unfold mbind at 1.
  by rewrite (collectLoop_error pre post ing _ tabs w w1 w2 e Hpre Hing).
Qed.

(** C6 as stated fails: when the configuration of member [b] cannot be
    computed, [run] returns the error of the computation itself, and not an
    error that wraps it with a message. *)
Lemma C6_counterexample :
  ¬ (∀ (E : Collaborators) (t : defaultModelBuildTask E)
       (pre post : list (Ingress E)) (ing : Ingress E) (tabs : portTables E)
       (w w1 w2 : World E) (e : error),
       ingGroup_Members t = pre ++ ing :: post →
       collectLoop pre (mkPortTables ∅ ∅) w = (Ok tabs, w1) →
       computeIngressListenPortConfigByPort E ing w1 = (Err e, w2) →
       ∃ msg, (run t w).1 = Err (errors.Wrapf e msg)).
Proof.
  intros H.
  destruct (H sample.failingAtB
              (mkTask sample.failingAtB [sample.ingA; sample.ingB; sample.ingC]
                 defaultSSLPolicy_Build)
              [sample.ingA] [sample.ingC] sample.ingB
              (foldl (addPort (E := sample.failingAtB) sample.ingA sample.ingA)
                 (mkPortTables ∅ ∅) [(443%Z, sample.httpPlain)])
              () () () sample.errInvalidAnnotation) as [msg Hmsg].
  - reflexivity.
  - vm_compute. reflexivity.
  - reflexivity.
  - vm_compute in Hmsg. discriminate Hmsg.
Qed.

(** C6, amended. When the computation of the configuration of a member
    fails, the members before it having been processed, [run] returns the
    error of that computation as it is, without wrapping it, and stops
    there: the world is the one the failed computation left.  [Build]
    returns the same error and no stack. *)
Theorem C6_collaborator_error (E : Collaborators) (t : defaultModelBuildTask E)
    (pre post : list (Ingress E)) (ing : Ingress E) (tabs : portTables E)
    (w w1 w2 : World E) (e : error) :
  ingGroup_Members t = pre ++ ing :: post →
  collectLoop pre (mkPortTables ∅ ∅) w = (Ok tabs, w1) →
  computeIngressListenPortConfigByPort E ing w1 = (Err e, w2) →
  run t w = (Err e, w2)
  ∧ Build (ingGroup_Members t) w = Err e.
Proof.
  intros Hmem Hpre Hing. split.
  - by eapply run_collect_error.
  - unfold Build.
    by rewrite (run_collect_error (mkTask E (ingGroup_Members t) _)
                  pre post ing tabs w w1 w2 e Hmem Hpre Hing).
Qed.

Lemma C6_collaborator_error_witness :
  run (mkTask sample.failingAtB [sample.ingA; sample.ingB; sample.ingC]
         defaultSSLPolicy_Build) ()
  = (Err sample.errInvalidAnnotation, ())
  ∧ Build (E := sample.failingAtB) [sample.ingA; sample.ingB; sample.ingC] ()
    = Err sample.errInvalidAnnotation.
Proof.
  apply (C6_collaborator_error sample.failingAtB
           (mkTask sample.failingAtB [sample.ingA; sample.ingB; sample.ingC]
              defaultSSLPolicy_Build)
           [sample.ingA] [sample.ingC] sample.ingB
           (foldl (addPort (E := sample.failingAtB) sample.ingA sample.ingA)
              (mkPortTables ∅ ∅) [(443%Z, sample.httpPlain)])
           () () ()).
  - reflexivity.
  - vm_compute. reflexivity.
  - reflexivity.
Defined.

(** ** The synthesizer and records it does not own *)

Lemma Synthesize_app {Cloud : Type} (pm : shield.ProtectionManager Cloud)
    (env : shield.Resolved) (ps qs : list shield.Protection) (c : Cloud) :
  shield.Synthesize pm env (ps ++ qs) c
  = let o1 := shield.Synthesize pm env ps c in
    let o2 := shield.Synthesize pm env qs (shield.cloud o1) in
    shield.mkOutcome (shield.calls o1 ++ shield.calls o2)
                     (shield.errs o1 ++ shield.errs o2) (shield.cloud o2).
Proof.
  revert c. induction ps as [|p ps IH]; intros c; simpl.
  - by destruct (shield.Synthesize pm env qs c).
  - rewrite IH. simpl. by rewrite !app_assoc.
Qed.

Lemma reconcile_foreign {Cloud : Type} (pm : shield.ProtectionManager Cloud)
    (env : shield.Resolved) (p : shield.Protection) (c : Cloud)
    (arn : string) (info : shield.ProtectionInfo) :
  shield.Resolve env (shield.ResourceARN (shield.Spec p)) = Some arn →
  shield.GetProtection pm arn c = Some info →
  shield.Name info ≠ shield.protectionName →
  shield.reconcile pm env p c = shield.mkOutcome [shield.CallGet arn] [] c.
Proof.
  intros Hr Hg Hn. unfold shield.reconcile. rewrite Hr, Hg.
  by rewrite decide_False by done.
Qed.

Lemma Synthesize_all_foreign {Cloud : Type} (pm : shield.ProtectionManager Cloud)
    (env : shield.Resolved) (ps : list shield.Protection) (c : Cloud) :
  Forall (shield.foreign pm env c) ps →
  filter (fun k => shield.isCreateOrDelete k)
         (shield.calls (shield.Synthesize pm env ps c)) = []
  ∧ shield.errs (shield.Synthesize pm env ps c) = []
  ∧ shield.cloud (shield.Synthesize pm env ps c) = c.
Proof.
  induction 1 as [|p ps (arn & info & Hr & Hg & Hn) _ (IH1 & IH2 & IH3)];
    simpl; [done|].
  rewrite (reconcile_foreign pm env p c arn info Hr Hg Hn). simpl.
  by rewrite IH2, IH3.
Qed.

(** C3. A desired resource whose live record exists without the ownership
    marker is reconciled with a single read: no create call, no delete
    call, no error and no change of the live state, whether the resource is
    enabled or not.  A pass over that resource alone, as in the test, makes
    that one read and returns no error; inside a longer pass the resource
    adds that one read and nothing else; and a pass over resources all of
    that sort makes no create or delete call and returns no error. *)
Theorem C3_synthesizer_ignores_foreign {Cloud : Type}
    (pm : shield.ProtectionManager Cloud) (env : shield.Resolved)
    (id : string) (enabled : bool) (token : shield.Token) (c : Cloud)
    (arn : string) (info : shield.ProtectionInfo) :
  shield.Resolve env token = Some arn →
  shield.GetProtection pm arn c = Some info →
  shield.Name info ≠ shield.protectionName →
  let p := shield.mkProtection id (shield.mkProtectionSpec enabled token) in
  shield.reconcile pm env p c = shield.mkOutcome [shield.CallGet arn] [] c
  ∧ shield.Synthesize pm env [p] c = shield.mkOutcome [shield.CallGet arn] [] c
  ∧ (∀ pre post c0,
       shield.cloud (shield.Synthesize pm env pre c0) = c →
       let o1 := shield.Synthesize pm env pre c0 in
       let o2 := shield.Synthesize pm env post c in
       shield.Synthesize pm env (pre ++ p :: post) c0
       = shield.mkOutcome
           (shield.calls o1 ++ shield.CallGet arn :: shield.calls o2)
           (shield.errs o1 ++ shield.errs o2) (shield.cloud o2))
  ∧ (∀ ps, Forall (shield.foreign pm env c) ps →
       filter (fun k => shield.isCreateOrDelete k)
              (shield.calls (shield.Synthesize pm env (p :: ps) c)) = []
       ∧ shield.errs (shield.Synthesize pm env (p :: ps) c) = []
       ∧ shield.cloud (shield.Synthesize pm env (p :: ps) c) = c).
Proof.
  intros Hr Hg Hn p.
  assert (Hrec : shield.reconcile pm env p c
                 = shield.mkOutcome [shield.CallGet arn] [] c)
    by by apply (reconcile_foreign pm env p c arn info).
  split; [done|]. split; [|split].
  - simpl. by rewrite Hrec.
  - intros pre post c0 Hc0. rewrite Synthesize_app. simpl.
    by rewrite Hc0, Hrec.
  - intros ps Hps. apply Synthesize_all_foreign. constructor; [|done].
    by exists arn, info.
Qed.

Lemma C3_synthesizer_ignores_foreign_witness :
  shield.Synthesize sample.mapManager ∅ [sample.fooDisabled] sample.someoneElse
  = shield.mkOutcome [shield.CallGet "arn"] [] sample.someoneElse
  ∧ shield.Synthesize sample.mapManager ∅ [sample.fooEnabled] sample.someoneElse
    = shield.mkOutcome [shield.CallGet "arn"] [] sample.someoneElse.
Proof.
  split.
  - apply (C3_synthesizer_ignores_foreign sample.mapManager ∅ "foo" false
             (shield.LiteralStringToken "arn") sample.someoneElse "arn"
             (shield.mkProtectionInfo "managed by someone-else" "id"));
      [reflexivity | reflexivity | discriminate].
  - apply (C3_synthesizer_ignores_foreign sample.mapManager ∅ "foo" true
             (shield.LiteralStringToken "arn") sample.someoneElse "arn"
             (shield.mkProtectionInfo "managed by someone-else" "id"));
      [reflexivity | reflexivity | discriminate].
Defined.

(** ** The models on the cases of the test-suite and of the specification *)

Example merge_cert_union :
  mergeListenPortConfigs defaultSSLPolicy_Build
    [(sample.ingA, sample.httpsX); (sample.ingB, sample.httpsY)]
  = Ok (mkListenPortConfig ProtocolHTTPS ["0.0.0.0/0"] ["::/0"]
          (Some "ELBSecurityPolicy-2016-08") ["x"; "y"]).
Proof. reflexivity. Qed.

Example merge_identical_cidrs :
  mergeListenPortConfigs defaultSSLPolicy_Build
    [(sample.ingA, sample.httpRestricted); (sample.ingB, sample.httpRestricted)]
  = Err (errors.New
           "conflicting sslPolicy, /: [10.0.0.0/8], [] | ns/b: [10.0.0.0/8], []").
Proof. reflexivity. Qed.

Example run_no_members (E : Collaborators) (w : World E) :
  run (mkTask E [] defaultSSLPolicy_Build) w = (Ok (), w).
Proof. reflexivity. Qed.

Example run_two_members :
  run (mkTask sample.failingAtB [sample.ingA; sample.ingC]
         defaultSSLPolicy_Build) ()
  = (Ok (), ()).
Proof. vm_compute. reflexivity. Qed.

Example synthesize_no_resources :
  shield.Synthesize sample.mapManager ∅ [] sample.someoneElse
  = shield.mkOutcome [] [] sample.someoneElse.
Proof. reflexivity. Qed.

Example synthesize_creates :
  shield.Synthesize sample.mapManager ∅ [sample.fooEnabled] ∅
  = shield.mkOutcome
      [shield.CallGet "arn";
       shield.CallCreate "arn" "managed by aws-load-balancer-controller"] []
      {[ "arn" := shield.mkProtectionInfo
                    "managed by aws-load-balancer-controller" "new-id" ]}.
Proof. vm_compute. reflexivity. Qed.

Example synthesize_removes :
  shield.calls
    (shield.Synthesize sample.mapManager ∅ [sample.fooDisabled]
       {[ "arn" := shield.mkProtectionInfo
                     "managed by aws-load-balancer-controller" "id" ]})
  = [shield.CallGet "arn"; shield.CallDelete "arn" "id"].
Proof. vm_compute. reflexivity. Qed.

Example run_merge_conflict :
  (run (mkTask sample.differingAtC [sample.ingA; sample.ingC]
          defaultSSLPolicy_Build) ()).1
  = Err (errors.Wrapf
           (errors.New "conflicting protocol, ns/c: HTTPS | ns/a: HTTP")
           "failed to merge listPort config for port: 443").
Proof. vm_compute. reflexivity. Qed.

Example run_merge_conflict_message :
  errors.Error
    (errors.Wrapf (errors.New "conflicting protocol, ns/c: HTTPS | ns/a: HTTP")
       "failed to merge listPort config for port: 443")
  = "failed to merge listPort config for port: 443: conflicting protocol, ns/c: HTTPS | ns/a: HTTP".
Proof. reflexivity. Qed.

(** ** Further properties of the merge *)

Lemma list_to_set_sets_List (s : sets.String) :
  list_to_set (sets.List s) = s.
Proof.
  apply set_eq. intros x. rewrite elem_of_list_to_set.
  apply (sets_List_spec s).
Qed.

Lemma finish_varsOf_Ok (d : string) (l : list entry) (r : listenPortConfig) :
  finish d (varsOf l) = Ok r →
  ∃ x, head l = Some x
       ∧ protocol r = protocol x.2
       ∧ tlsCerts r = sets.List (certsOf l)
       ∧ inboundCIDRv4s r
         = (if definedCIDRs (mergedInboundCIDRv4s (varsOf l))
                            (mergedInboundCIDRv6s (varsOf l))
            then mergedInboundCIDRv4s (varsOf l) else ["0.0.0.0/0"])
       ∧ inboundCIDRv6s r
         = (if definedCIDRs (mergedInboundCIDRv4s (varsOf l))
                            (mergedInboundCIDRv6s (varsOf l))
            then mergedInboundCIDRv6s (varsOf l) else ["::/0"])
       ∧ sslPolicy r
         = match mergedSSLPolicy (varsOf l) with
           | Some p => Some p
           | None => if decide (protocol x.2 = ProtocolHTTPS)
                     then Some d else None
           end.
Proof.
  unfold finish. destruct l as [|x l]; [done|].
  change (mergedProtocol (varsOf (x :: l))) with (Some (protocol x.2)).
  cbv beta iota zeta. intros [= <-]. exists x. split; [done|].
  cbn [protocol tlsCerts inboundCIDRv4s inboundCIDRv6s sslPolicy].
  split; [reflexivity|]. split; [reflexivity|].
  change (default [] ((λ e : entry, inboundCIDRv4s e.2) <$>
            head (filter (λ e : entry, definedEntry e) (x :: l))))
    with (mergedInboundCIDRv4s (varsOf (x :: l))).
  change (default [] ((λ e : entry, inboundCIDRv6s e.2) <$>
            head (filter (λ e : entry, definedEntry e) (x :: l))))
    with (mergedInboundCIDRv6s (varsOf (x :: l))).
  change (head (filter (λ e : entry, hasSSLPolicy e) (x :: l))
            ≫= λ e : entry, sslPolicy e.2)
    with (mergedSSLPolicy (varsOf (x :: l))).
  unfold definedCIDRs.
  generalize (mergedInboundCIDRv4s (varsOf (x :: l))).
  generalize (mergedInboundCIDRv6s (varsOf (x :: l))).
  generalize (mergedSSLPolicy (varsOf (x :: l))).
  intros pol v6 v4. split; [|split].
  - destruct v4, v6; done.
  - destruct v4, v6; done.
  - destruct pol; by case_decide.
Qed.

(** X1. The merge succeeds exactly on the non-empty inputs in which all
    members have the same protocol, at most one member defines inbound
    CIDRs, and the members that set an SSL policy set the same one. *)
Theorem X1_merge_succeeds_iff (d : string) (l : list entry) :
  isOk (mergeListenPortConfigs d l) = true
  ↔ l ≠ [] ∧ protocolsAgree l ∧ cidrsDefinedAtMostOnce l ∧ sslPoliciesAgree l.
Proof.
  rewrite merge_isOk. unfold consistent. tauto.
Qed.

Lemma X1_merge_succeeds_iff_witness :
  [(sample.ingA, sample.httpsX); (sample.ingB, sample.httpsY)] ≠ []
  ∧ protocolsAgree [(sample.ingA, sample.httpsX); (sample.ingB, sample.httpsY)]
  ∧ cidrsDefinedAtMostOnce
      [(sample.ingA, sample.httpsX); (sample.ingB, sample.httpsY)]
  ∧ sslPoliciesAgree [(sample.ingA, sample.httpsX); (sample.ingB, sample.httpsY)].
Proof.
  apply (proj1 (X1_merge_succeeds_iff defaultSSLPolicy_Build
                  [(sample.ingA, sample.httpsX); (sample.ingB, sample.httpsY)])).
  reflexivity.
Defined.

(** X2. The protocol of a successful merge is the protocol of every
    member. *)
Theorem X2_merged_protocol (d : string) (l : list entry) (r : listenPortConfig) :
  mergeListenPortConfigs d l = Ok r →
  ∀ e, e ∈ l → protocol e.2 = protocol r.
Proof.
  intros Hm e He. apply merge_Ok_inv in Hm as ((Hp & _) & _ & Hfin).
  apply finish_varsOf_Ok in Hfin as (x & Hx & -> & _).
  apply Hp; [done|]. by apply head_Some_elem_of.
Qed.

Lemma X2_merged_protocol_witness :
  protocol (sample.ingB, sample.httpsY).2
  = protocol (mkListenPortConfig ProtocolHTTPS ["0.0.0.0/0"] ["::/0"]
                (Some "ELBSecurityPolicy-2016-08") ["x"; "y"]).
Proof.
  apply (X2_merged_protocol defaultSSLPolicy_Build
           [(sample.ingA, sample.httpsX); (sample.ingB, sample.httpsY)]).
  - reflexivity.
  - apply elem_of_cons. right. by apply list_elem_of_singleton.
Defined.

(** X3. In a successful merge, an SSL policy set by any member is the
    merged SSL policy, whatever the protocol; and when no member sets one and
    the protocol is not HTTPS the merged configuration has none. *)
Theorem X3_merged_ssl_policy (d : string) (l : list entry) (r : listenPortConfig) :
  mergeListenPortConfigs d l = Ok r →
  (∀ e p, e ∈ l → sslPolicy e.2 = Some p → sslPolicy r = Some p)
  ∧ ((∀ e, e ∈ l → sslPolicy e.2 = None) → protocol r ≠ ProtocolHTTPS →
     sslPolicy r = None).
Proof.
  intros Hm. apply merge_Ok_inv in Hm as ((_ & _ & Hs) & _ & Hfin).
  apply finish_varsOf_Ok in Hfin as (x & Hx & Hp & _ & _ & _ & Hpol).
  rewrite Hpol, Hp. simpl. split.
  - intros e p He Hep.
    destruct (filter (fun e => hasSSLPolicy e) l) as [|y f] eqn:Hf.
    + assert (Hin : e ∈ filter (fun e => hasSSLPolicy e) l).
      { apply list_elem_of_filter. split; [|done].
        unfold hasSSLPolicy. by rewrite Hep. }
      rewrite Hf in Hin. by apply elem_of_nil in Hin.
    + simpl.
      assert (Hy : y ∈ filter (fun e => hasSSLPolicy e) l) by (rewrite Hf; by left).
      apply list_elem_of_filter in Hy as [Hq Hy]. unfold hasSSLPolicy in Hq.
      destruct (sslPolicy y.2) as [q|] eqn:Hyq; [|done].
      f_equal. by apply (Hs y e q p).
  - intros Hnone Hne.
    destruct (filter (fun e => hasSSLPolicy e) l) as [|y f] eqn:Hf; simpl.
    + by rewrite decide_False.
    + assert (Hy : y ∈ filter (fun e => hasSSLPolicy e) l) by (rewrite Hf; by left).
      apply list_elem_of_filter in Hy as [Hq Hy]. unfold hasSSLPolicy in Hq.
      by rewrite (Hnone y Hy) in Hq.
Qed.

Lemma X3_merged_ssl_policy_witness :
  sslPolicy (mkListenPortConfig ProtocolHTTP ["10.0.0.0/8"] [] None []) = None.
Proof.
  refine (proj2 (X3_merged_ssl_policy defaultSSLPolicy_Build
                   [(sample.ingA, sample.httpPlain);
                    (sample.ingB, sample.httpRestricted)] _ eq_refl) _ _).
  - intros e He. apply elem_of_cons in He as [->|He]; [done|].
    by apply list_elem_of_singleton in He as ->.
  - discriminate.
Defined.

(** X4. A merged configuration always has inbound CIDRs, those of a member
    or the defaults, and a merged configuration on HTTPS always has an SSL
    policy. *)
Theorem X4_merged_config_complete (d : string) (l : list entry)
    (r : listenPortConfig) :
  mergeListenPortConfigs d l = Ok r →
  definedCIDRs (inboundCIDRv4s r) (inboundCIDRv6s r) = true
  ∧ (protocol r = ProtocolHTTPS → ∃ p, sslPolicy r = Some p).
Proof.
  intros Hm. apply merge_Ok_inv in Hm as (_ & _ & Hfin).
  apply finish_varsOf_Ok in Hfin as (x & Hx & Hp & _ & H4 & H6 & Hpol).
  rewrite H4, H6, Hpol, Hp. split.
  - by destruct (definedCIDRs _ _) eqn:Hd.
  - intros Hs. destruct (mergedSSLPolicy (varsOf l)); [by eauto|].
    rewrite decide_True by done. by eauto.
Qed.

Lemma X4_merged_config_complete_witness :
  definedCIDRs ["0.0.0.0/0"] ["::/0"] = true
  ∧ ∃ p, Some "ELBSecurityPolicy-2016-08" = Some p.
Proof.
  destruct (X4_merged_config_complete defaultSSLPolicy_Build
              [(sample.ingA, sample.httpsX); (sample.ingB, sample.httpsY)]
              (mkListenPortConfig ProtocolHTTPS ["0.0.0.0/0"] ["::/0"]
                 (Some "ELBSecurityPolicy-2016-08") ["x"; "y"]) eq_refl)
    as [Hcidr Hssl].
  split; [exact Hcidr | exact (Hssl eq_refl)].
Defined.

(** X5. The loop returns at the first conflict: a conflict of an input is
    still the result when further members follow in the iteration. *)
Theorem X5_conflict_ends_the_merge (d : string) (l l' : list entry) (e : error) :
  l ≠ [] → mergeListenPortConfigs d l = Err e →
  mergeListenPortConfigs d (l ++ l') = Err e.
Proof.
  intros Hne Hm. apply merge_Err_inv in Hm as [[? _]|[_ Hm]]; [done|].
  by rewrite merge_unfold, rangeLoop_app, Hm.
Qed.

Lemma X5_conflict_ends_the_merge_witness :
  mergeListenPortConfigs defaultSSLPolicy_Build
    ([(sample.ingA, sample.httpPlain); (sample.ingC, sample.httpsX)]
     ++ [(sample.ingB, sample.httpRestricted)])
  = Err (errors.New "conflicting protocol, ns/a: HTTP | ns/c: HTTPS").
Proof.
  apply (X5_conflict_ends_the_merge defaultSSLPolicy_Build
           [(sample.ingA, sample.httpPlain); (sample.ingC, sample.httpsX)]);
    [discriminate | reflexivity].
Defined.

(** X6. Taking members away from an input that merges leaves an input that
    merges, as long as a member is left. *)
Theorem X6_fewer_members_still_merge (d : string) (l l' : list entry) :
  isOk (mergeListenPortConfigs d l) = true → l' ⊆+ l → l' ≠ [] →
  isOk (mergeListenPortConfigs d l') = true.
Proof.
  intros Hok Hsub Hne. apply merge_isOk in Hok as [Hc _].
  apply merge_isOk. split; [|done].
  apply submseteq_Permutation in Hsub as [k Hk].
  by apply (consistent_app_l l' k), (consistent_Permutation l).
Qed.

Lemma X6_fewer_members_still_merge_witness :
  isOk (mergeListenPortConfigs defaultSSLPolicy_Build
          [(sample.ingB, sample.httpsY)]) = true.
Proof.
  apply (X6_fewer_members_still_merge defaultSSLPolicy_Build
           [(sample.ingA, sample.httpsX); (sample.ingB, sample.httpsY)]).
  - reflexivity.
  - apply submseteq_cons, submseteq_skip, submseteq_nil_l.
  - discriminate.
Defined.

(** X7. A single member always merges: its protocol and certificates
    (sorted, each once) are kept, its CIDRs are kept when it defines some and
    are the defaults otherwise, and its SSL policy is kept when it sets one
    and is the default of the task on HTTPS otherwise. *)
Theorem X7_single_member (d : string) (k : NamespacedName) (c : listenPortConfig) :
  mergeListenPortConfigs d [(k, c)]
  = Ok {| protocol := protocol c;
          inboundCIDRv4s :=
            if definedCIDRs (inboundCIDRv4s c) (inboundCIDRv6s c)
            then inboundCIDRv4s c else ["0.0.0.0/0"];
          inboundCIDRv6s :=
            if definedCIDRs (inboundCIDRv4s c) (inboundCIDRv6s c)
            then inboundCIDRv6s c else ["::/0"];
          sslPolicy :=
            match sslPolicy c with
            | Some p => Some p
            | None => if decide (protocol c = ProtocolHTTPS)
                      then Some d else None
            end;
          tlsCerts := sets.List (list_to_set (tlsCerts c)) |}.
Proof.
  destruct c as [p v4 v6 pol certs].
  unfold mergeListenPortConfigs, rangeLoop, loopBody, mergeProtocol,
    mergeInboundCIDRs, mergeSSLPolicy, finish.
  simpl.
  assert (Hcerts : sets.Insert sets.NewString certs = list_to_set certs).
  { unfold sets.Insert, sets.NewString. by rewrite (left_id_L ∅ (∪)). }
  destruct v4 as [|a4 v4], v6 as [|a6 v6], pol as [pl|]; simpl;
    rewrite Hcerts; by case_decide.
Qed.

Lemma head_filter_first {A : Type} (P : A → Prop) `{∀ a, Decision (P a)}
    (l1 l2 : list A) (x : A) :
  Forall (fun a => ¬ P a) l1 → P x →
  head (filter P (l1 ++ x :: l2)) = Some x.
Proof.
  intros Hl1 Hx. rewrite filter_app, filter_cons_True by done.
  replace (filter P l1) with (@nil A); [done|].
  symmetry. induction Hl1 as [|a l1 Ha _ IH]; [done|].
  by rewrite filter_cons_False.
Qed.

(** X8. When a member sets an SSL policy other than the one the loop has
    adopted from the first member that set one, the members before it being
    free of conflicts, the merge returns the SSL-policy conflict naming that
    first member with its policy and the later member with its own. *)
Theorem X8_ssl_policy_conflict (d : string) (pre1 pre2 post : list entry)
    (k1 k : NamespacedName) (c1 c : listenPortConfig) (p1 p : string) :
  consistent (pre1 ++ (k1, c1) :: pre2) →
  Forall (fun e => sslPolicy e.2 = None) pre1 →
  sslPolicy c1 = Some p1 → sslPolicy c = Some p → p1 ≠ p →
  protocol c = protocol c1 →
  definedEntry (k, c) = false →
  mergeListenPortConfigs d ((pre1 ++ (k1, c1) :: pre2) ++ (k, c) :: post)
  = Err (errConflictingSSLPolicy k1 p1 k p).
Proof.
  intros Hc Hnone H1 H2 Hne Hproto Hdef.
  rewrite merge_unfold.
  rewrite (rangeLoop_first_clash _ post (k, c)
             (errConflictingSSLPolicy k1 p1 k p) Hc); [done|].
  unfold clash.
  assert (HP : protocolClash (pre1 ++ (k1, c1) :: pre2) (k, c) = None).
  { unfold protocolClash.
    destruct (head (pre1 ++ (k1, c1) :: pre2)) as [h|] eqn:Hh; simpl; [|done].
    case_decide as Hd; [|done]. destruct Hd. simpl. rewrite Hproto.
    destruct Hc as (Hp & _). apply (Hp h (k1, c1)).
    - by apply head_Some_elem_of.
    - apply elem_of_app. right. by left. }
  assert (HC : cidrClash (pre1 ++ (k1, c1) :: pre2) (k, c) = None).
  { unfold cidrClash. rewrite Hdef. by destruct (head _). }
  rewrite HP, HC. unfold sslPolicyClash.
  rewrite (head_filter_first _ pre1 pre2 (k1, c1)).
  - simpl. rewrite H1, H2. simpl. by rewrite decide_True.
  - eapply Forall_impl; [exact Hnone|]. intros e He. unfold hasSSLPolicy.
    rewrite He. simpl. tauto.
  - unfold hasSSLPolicy. simpl. by rewrite H1.
Qed.

Lemma X8_ssl_policy_conflict_witness :
  mergeListenPortConfigs defaultSSLPolicy_Build
    (([(sample.ingA, sample.httpsX)]
      ++ (sample.ingB,
          mkListenPortConfig ProtocolHTTPS [] [] (Some "policy-1") []) :: [])
     ++ (sample.ingC,
         mkListenPortConfig ProtocolHTTPS [] [] (Some "policy-2") []) :: [])
  = Err (errors.New "conflicting sslPolicy, ns/b: policy-1 | ns/c: policy-2").
Proof.
  apply (X8_ssl_policy_conflict defaultSSLPolicy_Build
           [(sample.ingA, sample.httpsX)] [] [] sample.ingB sample.ingC
           (mkListenPortConfig ProtocolHTTPS [] [] (Some "policy-1") [])
           (mkListenPortConfig ProtocolHTTPS [] [] (Some "policy-2") [])
           "policy-1" "policy-2").
  - by apply rangeLoop_isOk.
  - by repeat constructor.
  - reflexivity.
  - reflexivity.
  - discriminate.
  - reflexivity.
  - reflexivity.
Defined.

Lemma filter_snoc_bool {A : Type} (f : A → bool) (l : list A) (x : A) :
  filter (fun a => f a) (l ++ [x])
  = filter (fun a => f a) l ++ (if f x then [x] else []).
Proof.
  rewrite filter_snoc. by destruct (f x).
Qed.

(** X9. Merging is incremental: when an input merges and still merges
    with one more member iterated last, the second result is the first one
    with the CIDRs of the new member if it defines some, its SSL policy if
    it sets one, and its certificates added to the list. *)
Theorem X9_one_more_member (d : string) (l : list entry) (x : entry)
    (r r' : listenPortConfig) :
  mergeListenPortConfigs d l = Ok r →
  mergeListenPortConfigs d (l ++ [x]) = Ok r' →
  r' = {| protocol := protocol r;
          inboundCIDRv4s :=
            if definedEntry x then inboundCIDRv4s x.2 else inboundCIDRv4s r;
          inboundCIDRv6s :=
            if definedEntry x then inboundCIDRv6s x.2 else inboundCIDRv6s r;
          sslPolicy :=
            match sslPolicy x.2 with
            | Some p => Some p
            | None => sslPolicy r
            end;
          tlsCerts :=
            sets.List (list_to_set (tlsCerts r) ∪ list_to_set (tlsCerts x.2)) |}.
Proof.
  intros Hm Hm'.
  apply merge_Ok_inv in Hm as (Hc & Hne & Hfin).
  apply merge_Ok_inv in Hm' as (Hc' & _ & Hfin').
  apply finish_varsOf_Ok in Hfin as (h & Hh & Hp & Ht & H4 & H6 & Hpol).
  apply finish_varsOf_Ok in Hfin' as (h' & Hh' & Hp' & Ht' & H4' & H6' & Hpol').
  rewrite head_snoc, Hh in Hh'. simplify_eq.
  destruct Hc' as (_ & Hone' & Hs').
  unfold cidrsDefinedAtMostOnce in Hone'.
  rewrite definedCIDRs_varsOf in H4, H6, H4', H6'.
  cbn [varsOf mergedInboundCIDRv4s mergedInboundCIDRv6s mergedSSLPolicy]
    in H4, H6, H4', H6', Hpol, Hpol'.
  rewrite filter_snoc_bool in Hone', H4', H6', Hpol'.
  rewrite length_app in Hone'.
  destruct r' as [rp r4 r6 rs rt]. simpl in Hp', Ht', H4', H6', Hpol'.
  f_equal.
  - congruence.
  - rewrite H4'. destruct (definedEntry x) eqn:Hx.
    + destruct (filter (fun e => definedEntry e) l); [done|].
      simpl in Hone'. lia.
    + by rewrite app_nil_r, <- H4.
  - rewrite H6'. destruct (definedEntry x) eqn:Hx.
    + destruct (filter (fun e => definedEntry e) l); [done|].
      simpl in Hone'. lia.
    + by rewrite app_nil_r, <- H6.
  - rewrite Hpol', Hpol.
    destruct (filter (fun e => hasSSLPolicy e) l) as [|y f] eqn:Hf; simpl.
    + unfold hasSSLPolicy at 1. destruct (sslPolicy x.2) as [p|] eqn:Hx; simpl.
      all: by rewrite ?Hx.
    + assert (Hy : y ∈ filter (fun e => hasSSLPolicy e) l) by (rewrite Hf; by left).
      apply list_elem_of_filter in Hy as [Hq Hy]. unfold hasSSLPolicy in Hq.
      destruct (sslPolicy y.2) as [q|] eqn:Hyq; [|done].
      destruct (sslPolicy x.2) as [p|] eqn:Hx; [|done].
      f_equal. apply (Hs' y x q p); [|by apply elem_of_app; right; left|done|done].
      apply elem_of_app. by left.
  - rewrite Ht', Ht, list_to_set_sets_List, certsOf_snoc. done.
Qed.

Lemma X9_one_more_member_witness :
  mkListenPortConfig ProtocolHTTPS ["0.0.0.0/0"] ["::/0"]
    (Some "ELBSecurityPolicy-2016-08") ["x"; "y"]
  = {| protocol := ProtocolHTTPS;
       inboundCIDRv4s := ["0.0.0.0/0"];
       inboundCIDRv6s := ["::/0"];
       sslPolicy := Some "ELBSecurityPolicy-2016-08";
       tlsCerts := sets.List (list_to_set ["x"] ∪ list_to_set ["y"]) |}.
Proof.
  apply (X9_one_more_member defaultSSLPolicy_Build
           [(sample.ingA, sample.httpsX)] (sample.ingB, sample.httpsY)
           (mkListenPortConfig ProtocolHTTPS ["0.0.0.0/0"] ["::/0"]
              (Some "ELBSecurityPolicy-2016-08") ["x"])); reflexivity.
Defined.

(** ** Further properties of the build task *)

Lemma addPort_tablesInv {E : Collaborators} (ing : Ingress E)
    (tabs : portTables E) (pc : Z * listenPortConfig) :
  tablesInv tabs → tablesInv (addPort ing (k8s_NamespacedName E ing) tabs pc).
Proof.
  destruct pc as [port cfg]. intros Hinv p. specialize (Hinv p).
  unfold addPort. cbn [ingListByPort listenPortConfigsByPort].
  destruct (decide (port = p)) as [->|Hne].
  - rewrite lookup_insert_eq.
    destruct (ingListByPort tabs !! p) as [ings|] eqn:Hi,
             (listenPortConfigsByPort tabs !! p) as [cfgs|] eqn:Hc;
      try done; rewrite ?lookup_insert_eq; simpl.
    + rewrite Hc. simpl. destruct Hinv as [Hne Hk]. split.
      { by destruct ings. }
      intros k. rewrite lookup_insert_is_Some, Hk. split.
      * intros [<-|[_ (i & Hi1 & Hi2)]].
        -- exists ing. split; [|done]. apply elem_of_app. right. by left.
        -- exists i. split; [|done]. apply elem_of_app. by left.
      * intros (i & Hi1 & Hi2). apply elem_of_app in Hi1 as [Hi1|Hi1].
        -- destruct (decide (k8s_NamespacedName E ing = k)); [by left|].
           right. split; [done|]. by exists i.
        -- apply list_elem_of_singleton in Hi1 as ->. by left.
    + split; [done|]. intros k.
      rewrite lookup_insert_is_Some, lookup_empty. split.
      * intros [<-|[_ [? ?]]]; [|done]. exists ing. split; [by left|done].
      * intros (i & Hi1 & Hi2). apply list_elem_of_singleton in Hi1 as ->.
        by left.
  - rewrite !lookup_insert_ne by done.
    destruct (listenPortConfigsByPort tabs !! port);
      by rewrite ?lookup_insert_ne by done.
Qed.

Lemma foldl_addPort_tablesInv {E : Collaborators} (ing : Ingress E)
    (pcs : list (Z * listenPortConfig)) (tabs : portTables E) :
  tablesInv tabs →
  tablesInv (foldl (addPort ing (k8s_NamespacedName E ing)) tabs pcs).
Proof.
  revert tabs. induction pcs as [|pc pcs IH]; intros tabs Hinv; [done|].
  simpl. by apply IH, addPort_tablesInv.
Qed.

Lemma collectLoop_tablesInv {E : Collaborators} (members : list (Ingress E))
    (tabs0 tabs : portTables E) (w w1 : World E) :
  tablesInv tabs0 → collectLoop members tabs0 w = (Ok tabs, w1) →
  tablesInv tabs.
Proof.
  revert tabs0 w. induction members as [|ing members IH]; intros tabs0 w Hinv.
  - simpl. unfold mret. by intros [= <- _].
  - simpl. unfold mbind.
    destruct (computeIngressListenPortConfigByPort E ing w) as [[m|e] w']; [|done].
    apply IH. by apply foldl_addPort_tablesInv.
Qed.

Lemma tablesInv_empty {E : Collaborators} : tablesInv (@mkPortTables E ∅ ∅).
Proof. intros port. simpl. by rewrite !lookup_empty. Qed.

(** X10. After the loop over the members, the two tables have the same
    ports; for every port at least one member is listed, and the names under
    which configurations are kept for the port are the names of the members
    listed for it: the rules of a listener are built from the members whose
    configurations were merged for its port. *)
Theorem X10_collected_tables {E : Collaborators} (members : list (Ingress E))
    (tabs : portTables E) (w w1 : World E) :
  collectLoop members (mkPortTables ∅ ∅) w = (Ok tabs, w1) →
  ∀ port,
    (is_Some (ingListByPort tabs !! port)
     ↔ is_Some (listenPortConfigsByPort tabs !! port))
    ∧ (∀ ings cfgs,
         ingListByPort tabs !! port = Some ings →
         listenPortConfigsByPort tabs !! port = Some cfgs →
         ings ≠ [] ∧ cfgs ≠ ∅
         ∧ ∀ k, is_Some (cfgs !! k)
                ↔ ∃ ing, ing ∈ ings ∧ k8s_NamespacedName E ing = k).
Proof.
  intros Hcol port.
  pose proof (collectLoop_tablesInv members _ tabs w w1 tablesInv_empty Hcol port)
    as Hinv.
  destruct (ingListByPort tabs !! port) as [ings|],
           (listenPortConfigsByPort tabs !! port) as [cfgs|]; try done.
  - split; [done|]. intros ? ? [= <-] [= <-]. destruct Hinv as [Hne Hk].
    split; [done|]. split; [|done]. intros ->.
    destruct ings as [|i ings]; [done|].
    destruct (proj2 (Hk (k8s_NamespacedName E i))) as [? Hl].
    + exists i. split; [by left|done].
    + by rewrite lookup_empty in Hl.
Qed.

Lemma X10_collected_tables_witness :
  (is_Some (ingListByPort
              (foldl (addPort (E := sample.differingAtC) sample.ingC sample.ingC)
                 (foldl (addPort (E := sample.differingAtC) sample.ingA sample.ingA)
                    (mkPortTables ∅ ∅) [(443%Z, sample.httpPlain)])
                 [(443%Z, sample.httpsX)]) !! 443%Z)
   ↔ is_Some (listenPortConfigsByPort
                (foldl (addPort (E := sample.differingAtC) sample.ingC sample.ingC)
                   (foldl (addPort (E := sample.differingAtC) sample.ingA sample.ingA)
                      (mkPortTables ∅ ∅) [(443%Z, sample.httpPlain)])
                   [(443%Z, sample.httpsX)]) !! 443%Z)).
Proof.
  refine (proj1 (X10_collected_tables (E := sample.differingAtC)
                   [sample.ingA; sample.ingC] _ () () _ 443%Z)).
  vm_compute. reflexivity.
Defined.

Lemma mergeLoop_app_Ok {E : Collaborators} (t : defaultModelBuildTask E)
    (pre rest : list (Z * gmap NamespacedName listenPortConfig))
    (acc : gmap Z listenPortConfig) :
  Forall (fun pc => isOk (mergeListenPortConfigs (defaultSSLPolicy t)
                            (rangeConfigByIngress E pc.2)) = true) pre →
  ∃ acc', mergeLoop t (pre ++ rest) acc = mergeLoop t rest acc'.
Proof.
  intros Hpre. revert acc.
  induction Hpre as [|[port cfgs] pre Hok _ IH]; intros acc; simpl; [by eauto|].
  simpl in Hok.
  destruct (mergeListenPortConfigs _ _) as [r|e]; [|done]. apply IH.
Qed.

Lemma mergeLoop_Err_inv {E : Collaborators} (t : defaultModelBuildTask E)
    (ports : list (Z * gmap NamespacedName listenPortConfig))
    (acc : gmap Z listenPortConfig) (e : error) :
  mergeLoop t ports acc = Err e →
  ∃ port cfgs e0,
    (port, cfgs) ∈ ports
    ∧ mergeListenPortConfigs (defaultSSLPolicy t) (rangeConfigByIngress E cfgs)
      = Err e0
    ∧ e = errFailedToMerge e0 port.
Proof.
  revert acc. induction ports as [|[port cfgs] ports IH]; intros acc; simpl; [done|].
  destruct (mergeListenPortConfigs _ _) as [r|e0] eqn:Hm.
  - intros He. destruct (IH _ He) as (p & c & e1 & Hin & Hm1 & ->).
    exists p, c, e1. split; [by right|done].
  - intros [= <-]. exists port, cfgs, e0. split; [by left|done].
Qed.

(** X11. When the merge of a port fails, the ports ranged over before it
    having merged, [run] returns the error of that merge wrapped with the
    message that gives the port, and it stops there: no load balancer and no
    listener is built, the world being the one the loop over the members
    left. *)
Theorem X11_merge_failure_aborts {E : Collaborators}
    (t : defaultModelBuildTask E) (tabs : portTables E) (w w1 : World E)
    (pre post : list (Z * gmap NamespacedName listenPortConfig))
    (port : Z) (cfgs : gmap NamespacedName listenPortConfig) (e0 : error) :
  ingGroup_Members t ≠ [] →
  collectLoop (ingGroup_Members t) (mkPortTables ∅ ∅) w = (Ok tabs, w1) →
  rangeConfigsByPort E (listenPortConfigsByPort tabs) = pre ++ (port, cfgs) :: post →
  Forall (fun pc => isOk (mergeListenPortConfigs (defaultSSLPolicy t)
                            (rangeConfigByIngress E pc.2)) = true) pre →
  mergeListenPortConfigs (defaultSSLPolicy t) (rangeConfigByIngress E cfgs)
  = Err e0 →
  run t w = (Err (errFailedToMerge e0 port), w1)
  ∧ errors.Error (errFailedToMerge e0 port)
    = "failed to merge listPort config for port: " +:+ fmt.int64 port
      +:+ ": " +:+ errors.Error e0.
Proof.
  intros Hne Hcol Hrange Hpre Hm. split; [|done].
  unfold run. destruct (ingGroup_Members t) as [|ing members] eqn:Hmem; [done|].
  cbn [length Nat.eqb]. unfold mbind at 1. rewrite Hcol.
  unfold mbind at 1. rewrite Hrange.
  destruct (mergeLoop_app_Ok t pre ((port, cfgs) :: post) ∅ Hpre) as [acc' ->].
  simpl. by rewrite Hm.
Qed.

Lemma X11_merge_failure_aborts_witness :
  run (mkTask sample.differingAtC [sample.ingA; sample.ingC]
         defaultSSLPolicy_Build) ()
  = (Err (errFailedToMerge
            (errors.New "conflicting protocol, ns/c: HTTPS | ns/a: HTTP") 443), ())
  ∧ errors.Error
      (errFailedToMerge
         (errors.New "conflicting protocol, ns/c: HTTPS | ns/a: HTTP") 443)
    = "failed to merge listPort config for port: " +:+ fmt.int64 443
      +:+ ": "
      +:+ errors.Error
            (errors.New "conflicting protocol, ns/c: HTTPS | ns/a: HTTP").
Proof.
  apply (X11_merge_failure_aborts
           (mkTask sample.differingAtC [sample.ingA; sample.ingC]
              defaultSSLPolicy_Build)
           (foldl (addPort (E := sample.differingAtC) sample.ingC sample.ingC)
              (foldl (addPort (E := sample.differingAtC) sample.ingA sample.ingA)
                 (mkPortTables ∅ ∅) [(443%Z, sample.httpPlain)])
              [(443%Z, sample.httpsX)])
           () () [] []
           443%Z
           (<[sample.ingC := sample.httpsX]>
              (<[sample.ingA := sample.httpPlain]> ∅))).
  - discriminate.
  - vm_compute. reflexivity.
  - vm_compute. reflexivity.
  - constructor.
  - vm_compute. reflexivity.
Defined.

(** X12. The merges [run] makes never meet an input without members: when
    the maps are ranged over faithfully, an error of the loop over the ports
    is always a conflict between two members that declared the port, wrapped
    with that port, and never the internal "should never happen" error. *)
Theorem X12_merge_inputs_nonempty {E : Collaborators}
    (t : defaultModelBuildTask E) (members : list (Ingress E))
    (tabs : portTables E) (w w1 : World E) (e : error) :
  (∀ m, rangeOrder m (rangeConfigByIngress E m)) →
  (∀ m, rangeOrder m (rangeConfigsByPort E m)) →
  collectLoop members (mkPortTables ∅ ∅) w = (Ok tabs, w1) →
  mergeLoop t (rangeConfigsByPort E (listenPortConfigsByPort tabs)) ∅ = Err e →
  ∃ port cfgs e0,
    listenPortConfigsByPort tabs !! port = Some cfgs
    ∧ e = errFailedToMerge e0 port
    ∧ conflictError (rangeConfigByIngress E cfgs) e0
    ∧ e0 ≠ errShouldNeverHappen.
Proof.
  intros HrI HrP Hcol He.
  apply mergeLoop_Err_inv in He as (port & cfgs & e0 & Hin & Hm & ->).
  unfold rangeOrder in HrP. rewrite HrP in Hin.
  apply elem_of_map_to_list in Hin.
  pose proof (collectLoop_tablesInv members _ tabs w w1 tablesInv_empty Hcol port)
    as Hinv.
  rewrite Hin in Hinv.
  destruct (ingListByPort tabs !! port) as [ings|]; [|done].
  destruct Hinv as [Hne Hk].
  assert (Hl : rangeConfigByIngress E cfgs ≠ []).
  { intros Hnil. specialize (HrI cfgs). unfold rangeOrder in HrI.
    rewrite Hnil in HrI. symmetry in HrI. apply Permutation_nil_r in HrI.
    apply map_to_list_empty_iff in HrI. subst cfgs.
    destruct ings as [|i ings]; [done|].
    destruct (proj2 (Hk (k8s_NamespacedName E i))) as [? Hl].
    - exists i. split; [by left|done].
    - by rewrite lookup_empty in Hl. }
  apply merge_Err_cases in Hm as [[? _]|[_ Hc]]; [done|].
  exists port, cfgs, e0. split; [done|]. split; [done|]. split; [done|].
  intros ->. by destruct (conflictError_prefix _ _ Hc) as [_ Hp].
Qed.

Lemma X12_merge_inputs_nonempty_witness :
  ∃ port cfgs e0,
    listenPortConfigsByPort
      (foldl (addPort (E := sample.differingAtC) sample.ingC sample.ingC)
         (foldl (addPort (E := sample.differingAtC) sample.ingA sample.ingA)
            (mkPortTables ∅ ∅) [(443%Z, sample.httpPlain)])
         [(443%Z, sample.httpsX)]) !! port = Some cfgs
    ∧ errFailedToMerge
        (errors.New "conflicting protocol, ns/c: HTTPS | ns/a: HTTP") 443
      = errFailedToMerge e0 port
    ∧ conflictError (rangeConfigByIngress sample.differingAtC cfgs) e0
    ∧ e0 ≠ errShouldNeverHappen.
Proof.
  apply (X12_merge_inputs_nonempty
           (mkTask sample.differingAtC [sample.ingA; sample.ingC]
              defaultSSLPolicy_Build)
           [sample.ingA; sample.ingC] _ () ()).
  - intros m. unfold rangeOrder. reflexivity.
  - intros m. unfold rangeOrder. reflexivity.
  - vm_compute. reflexivity.
  - vm_compute. reflexivity.
Defined.

Lemma rangeOrder_NoDup_keys `{Countable K} {V : Type} (m : gmap K V)
    (l : list (K * V)) :
  rangeOrder m l → NoDup l.*1.
Proof.
  unfold rangeOrder. intros ->. apply NoDup_fst_map_to_list.
Qed.

Lemma addPort_ingList {E : Collaborators} (ing : Ingress E) (key : NamespacedName)
    (tabs : portTables E) (p : Z) (c : listenPortConfig) (port : Z) :
  default [] (ingListByPort (addPort ing key tabs (p, c)) !! port)
  = default [] (ingListByPort tabs !! port)
    ++ (if decide (port = p) then [ing] else []).
Proof.
  unfold addPort. cbn [ingListByPort]. destruct (decide (port = p)) as [->|Hne].
  - by rewrite lookup_insert_eq.
  - rewrite lookup_insert_ne by done. by rewrite app_nil_r.
Qed.

Lemma foldl_addPort_ingList {E : Collaborators} (ing : Ingress E)
    (key : NamespacedName) (pcs : list (Z * listenPortConfig))
    (tabs : portTables E) (port : Z) :
  NoDup pcs.*1 →
  default [] (ingListByPort (foldl (addPort ing key) tabs pcs) !! port)
  = default [] (ingListByPort tabs !! port)
    ++ (if decide (port ∈ pcs.*1) then [ing] else []).
Proof.
  revert tabs. induction pcs as [|[p c] pcs IH]; intros tabs Hnd;
    cbn [foldl fmap list_fmap fst].
  - rewrite decide_False by apply not_elem_of_nil. by rewrite app_nil_r.
  - apply NoDup_cons in Hnd as [Hp Hnd]. rewrite (IH _ Hnd), addPort_ingList.
    rewrite <- app_assoc. f_equal.
    destruct (decide (port = p)) as [->|Hne].
    + rewrite decide_False by done. rewrite decide_True by by left. done.
    + simpl. destruct (decide (port ∈ pcs.*1)) as [Hin|Hnin].
      * rewrite decide_True by by right. done.
      * rewrite decide_False; [done|]. intros Hc.
        apply elem_of_cons in Hc as [?|?]; done.
Qed.

Lemma collectLoop_ingList {E : Collaborators} (members : list (Ingress E))
    (tabs0 tabs : portTables E) (w w1 : World E) (port : Z) :
  (∀ m, rangeOrder m (rangeConfigByPortForIngress E m)) →
  collectLoop members tabs0 w = (Ok tabs, w1) →
  ∃ s, s `sublist_of` members
       ∧ default [] (ingListByPort tabs !! port)
         = default [] (ingListByPort tabs0 !! port) ++ s.
Proof.
  intros Hr. revert tabs0 w.
  induction members as [|ing members IH]; intros tabs0 w; simpl.
  - unfold mret. intros [= <- _]. exists []. by rewrite app_nil_r.
  - unfold mbind.
    destruct (computeIngressListenPortConfigByPort E ing w) as [[m|e] w']; [|done].
    intros Hcol. destruct (IH _ _ Hcol) as (s & Hs & Heq).
    rewrite foldl_addPort_ingList in Heq
      by (eapply rangeOrder_NoDup_keys; apply Hr).
    rewrite <- app_assoc in Heq.
    destruct (decide (port ∈ (rangeConfigByPortForIngress E m).*1)).
    + exists (ing :: s). split; [by apply sublist_skip | done].
    + exists s. split; [by apply sublist_cons | done].
Qed.

(** X13. When the map of a member is ranged over faithfully, the members
    the first loop lists for a port are members of the group, each at most as
    often as in the group and in the order of the group. *)
Theorem X13_members_of_a_port_in_order {E : Collaborators}
    (members : list (Ingress E)) (tabs : portTables E) (w w1 : World E)
    (port : Z) (ings : list (Ingress E)) :
  (∀ m, rangeOrder m (rangeConfigByPortForIngress E m)) →
  collectLoop members (mkPortTables ∅ ∅) w = (Ok tabs, w1) →
  ingListByPort tabs !! port = Some ings →
  ings `sublist_of` members.
Proof.
  intros Hr Hcol Hl.
  destruct (collectLoop_ingList members _ tabs w w1 port Hr Hcol) as (s & Hs & Heq).
  rewrite Hl in Heq. simpl in Heq. rewrite lookup_empty in Heq. simpl in Heq.
  by subst.
Qed.

Lemma X13_members_of_a_port_in_order_witness :
  [sample.ingA; sample.ingC] `sublist_of` [sample.ingA; sample.ingC].
Proof.
  apply (X13_members_of_a_port_in_order (E := sample.differingAtC)
           [sample.ingA; sample.ingC]
           (foldl (addPort (E := sample.differingAtC) sample.ingC sample.ingC)
              (foldl (addPort (E := sample.differingAtC) sample.ingA sample.ingA)
                 (mkPortTables ∅ ∅) [(443%Z, sample.httpPlain)])
              [(443%Z, sample.httpsX)])
           () () 443%Z).
  - intros m. unfold rangeOrder. reflexivity.
  - vm_compute. reflexivity.
  - vm_compute. reflexivity.
Defined.

Lemma mergeLoop_Ok_inv {E : Collaborators} (t : defaultModelBuildTask E)
    (ports : list (Z * gmap NamespacedName listenPortConfig))
    (acc m : gmap Z listenPortConfig) :
  NoDup ports.*1 → mergeLoop t ports acc = Ok m →
  (∀ port cfgs, (port, cfgs) ∈ ports →
     ∃ r, m !! port = Some r
          ∧ mergeListenPortConfigs (defaultSSLPolicy t)
              (rangeConfigByIngress E cfgs) = Ok r)
  ∧ (∀ port, port ∉ ports.*1 → m !! port = acc !! port).
Proof.
  revert acc. induction ports as [|[p c] ports IH]; intros acc Hnd; simpl.
  - intros [= <-]. split; [|done]. intros ? ? Hin. by apply elem_of_nil in Hin.
  - apply NoDup_cons in Hnd as [Hp Hnd].
    destruct (mergeListenPortConfigs _ _) as [r|e] eqn:Hm; [|done].
    intros Hl. destruct (IH _ Hnd Hl) as [Hin Hout]. split.
    + intros port cfgs Hpc. apply elem_of_cons in Hpc as [[= -> ->]|Hpc].
      * exists r. split; [|done]. by rewrite (Hout p Hp), lookup_insert_eq.
      * by apply Hin.
    + intros port Hport. apply not_elem_of_cons in Hport as [Hne Hport].
      rewrite (Hout port Hport). by rewrite lookup_insert_ne.
Qed.

(** X14. When the loop over the ports succeeds, the map being ranged over
    faithfully, the merged configurations have the ports of the collected
    configurations and no others, and each port holds the merge of the
    configurations collected for it. *)
Theorem X14_merged_ports {E : Collaborators} (t : defaultModelBuildTask E)
    (cfgsByPort : gmap Z (gmap NamespacedName listenPortConfig))
    (m : gmap Z listenPortConfig) :
  (∀ m', rangeOrder m' (rangeConfigsByPort E m')) →
  mergeLoop t (rangeConfigsByPort E cfgsByPort) ∅ = Ok m →
  (∀ port, is_Some (m !! port) ↔ is_Some (cfgsByPort !! port))
  ∧ (∀ port cfgs, cfgsByPort !! port = Some cfgs →
       ∃ r, m !! port = Some r
            ∧ mergeListenPortConfigs (defaultSSLPolicy t)
                (rangeConfigByIngress E cfgs) = Ok r).
Proof.
  intros Hr Hl. pose proof (Hr cfgsByPort) as Hperm.
  destruct (mergeLoop_Ok_inv t _ ∅ m (rangeOrder_NoDup_keys _ _ Hperm) Hl)
    as [Hin Hout].
  unfold rangeOrder in Hperm.
  assert (Hsome : ∀ port cfgs, cfgsByPort !! port = Some cfgs →
            ∃ r, m !! port = Some r
                 ∧ mergeListenPortConfigs (defaultSSLPolicy t)
                     (rangeConfigByIngress E cfgs) = Ok r).
  { intros port cfgs Hp. apply Hin. rewrite Hperm.
    by apply elem_of_map_to_list. }
  split; [|done]. intros port. split.
  - intros [r Hm]. destruct (cfgsByPort !! port) as [cfgs|] eqn:Hp; [by eauto|].
    rewrite Hout, lookup_empty in Hm; [done|].
    rewrite Hperm. intros Hk. apply list_elem_of_fmap in Hk as ([p c] & -> & Hk).
    apply elem_of_map_to_list in Hk. simpl in Hp. congruence.
  - intros [cfgs Hp]. destruct (Hsome port cfgs Hp) as (r & Hm & _). by eauto.
Qed.

Lemma X14_merged_ports_witness :
  ∃ r, ({[ 443%Z := mkListenPortConfig ProtocolHTTPS ["0.0.0.0/0"] ["::/0"]
                      (Some "ELBSecurityPolicy-2016-08") ["x"] ]}
        : gmap Z listenPortConfig) !! 443%Z = Some r
       ∧ mergeListenPortConfigs defaultSSLPolicy_Build
           (rangeConfigByIngress sample.differingAtC
              {[ sample.ingC := sample.httpsX ]}) = Ok r.
Proof.
  refine (proj2 (X14_merged_ports
                   (mkTask sample.differingAtC [sample.ingC] defaultSSLPolicy_Build)
                   {[ 443%Z := {[ sample.ingC := sample.httpsX ]} ]} _ _ _)
            443%Z _ _).
  - intros m'. unfold rangeOrder. reflexivity.
  - vm_compute. reflexivity.
  - reflexivity.
Defined.

Lemma listenerLoop_app {E : Collaborators} (lb : LoadBalancer E)
    (ingLists : gmap Z (list (Ingress E)))
    (pre rest : list (Z * listenPortConfig)) (w : World E) :
  listenerLoop lb ingLists (pre ++ rest) w
  = match listenerLoop lb ingLists pre w with
    | (Ok _, w') => listenerLoop lb ingLists rest w'
    | (Err e, w') => (Err e, w')
    end.
Proof.
  revert w. induction pre as [|[port cfg] pre IH]; intros w; simpl; [done|].
  unfold mbind.
  destruct (buildListener E _ port cfg _ w) as [[ls|e] w1]; [|done].
  destruct (buildListenerRules E _ port _ _ w1) as [[u|e] w2]; [|done].
  apply IH.
Qed.

(** X15. In the loop over the merged ports, the first failure ends the
    loop and is returned as it is: when the listener of a port cannot be
    built its rules are not built, when its rules cannot be built the error
    is that of the rules, and in both cases the ports left are not
    visited. *)
Theorem X15_listener_failure {E : Collaborators} (lb : LoadBalancer E)
    (ingLists : gmap Z (list (Ingress E)))
    (pre post : list (Z * listenPortConfig)) (port : Z) (cfg : listenPortConfig)
    (w w1 : World E) :
  listenerLoop lb ingLists pre w = (Ok (), w1) →
  (∀ e w2,
     buildListener E (LoadBalancerARN E lb) port cfg
       (default [] (ingLists !! port)) w1 = (Err e, w2) →
     listenerLoop lb ingLists (pre ++ (port, cfg) :: post) w = (Err e, w2))
  ∧ (∀ ls w2 e w3,
       buildListener E (LoadBalancerARN E lb) port cfg
         (default [] (ingLists !! port)) w1 = (Ok ls, w2) →
       buildListenerRules E (ListenerARN E ls) port (protocol cfg)
         (default [] (ingLists !! port)) w2 = (Err e, w3) →
       listenerLoop lb ingLists (pre ++ (port, cfg) :: post) w = (Err e, w3)).
Proof.
  intros Hpre. split.
  - intros e w2 Hls. rewrite listenerLoop_app, Hpre. simpl. unfold mbind.
    by rewrite Hls.
  - intros ls w2 e w3 Hls Hrules. rewrite listenerLoop_app, Hpre. simpl.
    unfold mbind. by rewrite Hls, Hrules.
Qed.

Lemma X15_listener_failure_witness :
  listenerLoop (E := sampleListener.failing) () ∅
    ([] ++ (443%Z, sample.httpPlain) :: [(80%Z, sample.httpPlain)])
    ["loadBalancer"]
  = (Err sampleListener.errNoCertificate, ["loadBalancer"]).
Proof.
  apply (proj1 (X15_listener_failure (E := sampleListener.failing) () ∅
                  [] [(80%Z, sample.httpPlain)] 443%Z sample.httpPlain
                  ["loadBalancer"] ["loadBalancer"] eq_refl)).
  reflexivity.
Defined.

(** X16. Every port for which [run] builds a listener has members: when
    the loop over the members and the loop over the ports succeed, the map of
    collected configurations being ranged over faithfully, the lookup of the
    members of a merged port finds a list that is not empty. *)
Theorem X16_listener_has_members {E : Collaborators}
    (t : defaultModelBuildTask E) (members : list (Ingress E))
    (tabs : portTables E) (w w1 : World E) (m : gmap Z listenPortConfig)
    (port : Z) (cfg : listenPortConfig) :
  (∀ m', rangeOrder m' (rangeConfigsByPort E m')) →
  collectLoop members (mkPortTables ∅ ∅) w = (Ok tabs, w1) →
  mergeLoop t (rangeConfigsByPort E (listenPortConfigsByPort tabs)) ∅ = Ok m →
  m !! port = Some cfg →
  ∃ ings, ingListByPort tabs !! port = Some ings ∧ ings ≠ [].
Proof.
  intros Hr Hcol Hl Hm.
  pose proof (Hr (listenPortConfigsByPort tabs)) as Hperm.
  destruct (mergeLoop_Ok_inv t _ ∅ m (rangeOrder_NoDup_keys _ _ Hperm) Hl)
    as [_ Hout].
  unfold rangeOrder in Hperm.
  destruct (decide (port ∈ (rangeConfigsByPort E (listenPortConfigsByPort tabs)).*1))
    as [Hin|Hnin].
  - apply list_elem_of_fmap in Hin as ([p cfgs] & -> & Hin).
    rewrite Hperm in Hin. apply elem_of_map_to_list in Hin. simpl in *.
    pose proof (collectLoop_tablesInv members _ tabs w w1 tablesInv_empty Hcol p)
      as Hinv.
    rewrite Hin in Hinv.
    destruct (ingListByPort tabs !! p) as [ings|]; [|done].
    exists ings. by destruct Hinv.
  - rewrite (Hout port Hnin), lookup_empty in Hm. done.
Qed.

Lemma X16_listener_has_members_witness :
  ∃ ings,
    ingListByPort
      (foldl (addPort (E := sampleListener.failing) sample.ingB sample.ingB)
         (foldl (addPort (E := sampleListener.failing) sample.ingA sample.ingA)
            (mkPortTables ∅ ∅) [(443%Z, sample.httpPlain)])
         [(443%Z, sample.httpPlain)]) !! 443%Z = Some ings
    ∧ ings ≠ [].
Proof.
  apply (X16_listener_has_members
           (mkTask sampleListener.failing [sample.ingA; sample.ingB]
              defaultSSLPolicy_Build)
           [sample.ingA; sample.ingB] _ [] []
           {[ 443%Z := mkListenPortConfig ProtocolHTTP ["0.0.0.0/0"] ["::/0"]
                         None [] ]}
           443%Z
           (mkListenPortConfig ProtocolHTTP ["0.0.0.0/0"] ["::/0"] None [])).
  - intros m'. unfold rangeOrder. reflexivity.
  - vm_compute. reflexivity.
  - vm_compute. reflexivity.
  - reflexivity.
Defined.

Example run_listener_failure :
  run (mkTask sampleListener.failing [sample.ingA; sample.ingB]
         defaultSSLPolicy_Build) []
  = (Err sampleListener.errNoCertificate, ["loadBalancer"]).
Proof. vm_compute. reflexivity. Qed.
